(** * The k-means routine of the clustering notebook

    A shallow embedding of [all_dist] and [cluster] from the "K means
    clustering" notebook, together with the NumPy primitives they call.

    Numbers.  The notebook computes on float64 arrays.  A number is here a
    binary64 value of the IEEE 754 specification of the standard library
    ([spec_float] with 53 bits of precision and [emax = 1024]): finite
    numbers, signed zeros, infinities and NaN, with the operations rounded
    to nearest, ties to even.  Underflow, overflow and rounding are those
    of the machine.  An array of data is well formed when its rows have the
    length its shape says and its cells are finite binary64 numbers.

    Sums.  [numpy.average] adds the cells of a cluster in order, starting
    from the first (the cluster is cut by a boolean mask on the second
    axis, and the sum runs along that axis); [numpy.sum] on the difference
    of the centroid arrays runs NumPy's pairwise summation over the
    flattened array.

    Control.  [cluster] has a [while not done] loop: the loop is a fixpoint
    on an iteration budget and answers [Timeout] when the budget is spent.
    Python exceptions are the [Raise] outcomes. *)

From Stdlib Require Import String List ZArith QArith Lia Lqa Bool Arith.
From Stdlib Require Import SpecFloat.
Import ListNotations.

Set Implicit Arguments.
Local Open Scope nat_scope.

(** ** Outcomes of Python code *)

Inductive exn := IndexError | ValueError.

Inductive outcome (A : Type) :=
| Ret (a : A)
| Raise (e : exn)
| Timeout.

Arguments Ret {A} a.
Arguments Raise {A} e.
Arguments Timeout {A}.

Definition bind {A B : Type} (c : outcome A) (f : A -> outcome B) : outcome B :=
  match c with
  | Ret a => f a
  | Raise e => Raise e
  | Timeout => Timeout
  end.

Notation "x <- c ;; f" := (bind c (fun x => f))
  (at level 61, c at next level, right associativity).

(** A list comprehension whose body may raise: left to right, the first
    exception wins. *)
Fixpoint mapM {A B : Type} (f : A -> outcome B) (l : list A) : outcome (list B) :=
  match l with
  | [] => Ret []
  | a :: l' => b <- f a ;; bs <- mapM f l' ;; Ret (b :: bs)
  end.

(** [range(k)] for a Python integer [k]: empty when [k <= 0]. *)
Definition range (k : Z) : list nat := seq 0 (Z.to_nat k).

(** [l[i]] on a one-dimensional array, for [i >= 0]. *)
Definition item {A : Type} (i : nat) (l : list A) : outcome A :=
  match nth_error l i with
  | Some a => Ret a
  | None => Raise IndexError
  end.

(** ** NumPy *)

Module Np.

(** *** float64 *)

Definition prec : Z := 53.
Definition emax : Z := 1024.

Abbreviation num := spec_float.

Abbreviation NaN := S754_nan.

(** [+0.0] and [-0.0] *)
Definition zero : num := S754_zero false.
Definition negzero : num := S754_zero true.

Definition isnan (a : num) : bool :=
  match a with NaN => true | _ => false end.

(** Neither NaN nor an infinity. *)
Definition isfinite (a : num) : bool :=
  match a with
  | S754_zero _ | S754_finite _ _ _ => true
  | _ => false
  end.

(** A finite number in the binary64 format. *)
Definition number (a : num) : bool :=
  isfinite a && valid_binary prec emax a.

Definition add : num -> num -> num := SFadd prec emax.
Definition sub : num -> num -> num := SFsub prec emax.
Definition mul : num -> num -> num := SFmul prec emax.
Definition div : num -> num -> num := SFdiv prec emax.
Definition sqrt : num -> num := SFsqrt prec emax.

(** [a ** 2]: NumPy squares by one multiplication. *)
Definition square (a : num) : num := mul a a.

(** [a >= b]: false as soon as one side is NaN. *)
Definition ge (a b : num) : bool := SFleb b a.

(** [a == 0]: true of both zeros. *)
Definition is_zero (a : num) : bool := SFeqb a zero.

(** The float64 nearest to [m * 2 ^ e], and the one nearest to an
    integer. *)
Definition dyadic (m e : Z) : num := binary_normalize prec emax m e false.
Definition of_Z (z : Z) : num := dyadic z 0.
Definition of_nat (n : nat) : num := of_Z (Z.of_nat n).

(** *** Two-dimensional arrays of data

    An array of shape [(length rows, ncols)], stored by rows.  The shape
    keeps the number of columns so that an array without rows still has
    one. *)

Record ndarray := mk_ndarray { ncols : nat; rows : list (list num) }.

Definition wf (a : ndarray) : Prop :=
  Forall (fun r => length r = ncols a /\ Forall (fun x => number x = true) r)
         (rows a).

(** [a[i, :]] *)
Definition row (i : nat) (a : ndarray) : outcome (list num) :=
  item i (rows a).

(** [a[:, j]] for [j >= 0] *)
Definition column (j : nat) (a : ndarray) : outcome (list num) :=
  if j <? ncols a then Ret (map (fun r => nth j r zero) (rows a))
  else Raise IndexError.

(** The entries of [r] at the places where [mask] holds. *)
Fixpoint select {A : Type} (mask : list bool) (r : list A) : list A :=
  match mask, r with
  | b :: mask', x :: r' => if b then x :: select mask' r' else select mask' r'
  | _, _ => []
  end.

Definition count_true (mask : list bool) : nat :=
  length (filter (fun b => b) mask).

(** [a[:, mask]] for a boolean [mask]: the mask must be as long as the
    second axis. *)
Definition compress (mask : list bool) (a : ndarray) : outcome ndarray :=
  if length mask =? ncols a
  then Ret (mk_ndarray (count_true mask) (map (select mask) (rows a)))
  else Raise IndexError.

(** [numpy.add.reduce] along the axis a boolean mask has cut: the running
    sum starts at the first cell and takes the others in order; the sum of
    no cell is [0.0]. *)
Definition add_reduce (r : list num) : num :=
  match r with
  | [] => zero
  | x :: r' => fold_left add r' x
  end.

(** The mean of a row of [n] cells: their sum divided by the count.  For
    an empty row this is [0.0 / 0], NaN. *)
Definition mean (n : nat) (r : list num) : num :=
  div (add_reduce r) (of_nat n).

(** [numpy.average(a, axis = 1)] *)
Definition average_axis1 (a : ndarray) : list num :=
  map (mean (ncols a)) (rows a).

(** [numpy.empty((k, n))]: the cells are overwritten before they are
    read, only the shape check is kept. *)
Definition empty (k : Z) (n : nat) : outcome unit :=
  if (k <? 0)%Z then Raise ValueError else Ret tt.

(** [m[d, :] = v] for a row of [n] cells: [v] has [n] entries or is
    broadcast from a single one. *)
Definition broadcast_row {A : Type} (n : nat) (v : list A) : outcome (list A) :=
  if length v =? n then Ret v
  else match v with
       | [x] => Ret (repeat x n)
       | _ => Raise ValueError
       end.

(** The scan of NumPy's argmin over floats: the running minimum [mp] at
    index [min_ind] is replaced by the entry at [i] when [not (x >= mp)],
    and the scan stops at the first NaN. *)
Fixpoint argmin_scan (mp : num) (min_ind i : nat) (ip : list num) : nat :=
  match ip with
  | [] => min_ind
  | x :: ip' =>
      if negb (ge x mp)
      then if isnan x then i else argmin_scan x i (S i) ip'
      else argmin_scan mp min_ind (S i) ip'
  end.

Definition argmin (ip : list num) : outcome nat :=
  match ip with
  | [] => Raise ValueError
  | mp :: ip' => Ret (if isnan mp then 0 else argmin_scan mp 0 1 ip')
  end.

(** [numpy.argmin(m, axis = 0)] for [m] of shape [(length m, n)]. *)
Definition argmin_axis0 (n : nat) (m : list (list num)) : outcome (list nat) :=
  match m with
  | [] => Raise ValueError
  | _ => mapM (fun j => argmin (map (fun r => nth j r NaN) m)) (seq 0 n)
  end.

(** [a - b] on two arrays of one shape. *)
Definition sub2 (a b : list (list num)) : list (list num) :=
  map (fun rs => map (fun xy => sub (fst xy) (snd xy)) (combine (fst rs) (snd rs)))
      (combine a b).

(** NumPy's pairwise summation of a contiguous run of float64.  Fewer than
    8 cells are added in order from [-0.0].  Up to 128 cells go through
    eight running sums, filled from the first eight cells and fed by the
    following blocks of eight; the running sums are added as a balanced
    tree and the cells left over are added in order.  A longer run is
    halved, the first half cut to a multiple of 8. *)
Definition add8 (r a : list num) : list num :=
  map (fun ra => add (fst ra) (snd ra)) (combine r a).

Fixpoint blocks (n : nat) (r a : list num) : list num * list num :=
  match n with
  | O => (r, a)
  | S n' => blocks n' (add8 r (firstn 8 a)) (skipn 8 a)
  end.

Definition tree8 (r : list num) : num :=
  add (add (add (nth 0 r NaN) (nth 1 r NaN)) (add (nth 2 r NaN) (nth 3 r NaN)))
      (add (add (nth 4 r NaN) (nth 5 r NaN)) (add (nth 6 r NaN) (nth 7 r NaN))).

Definition sum_block (a : list num) : num :=
  let ra := blocks (length a / 8 - 1) (firstn 8 a) (skipn 8 a) in
  fold_left add (snd ra) (tree8 (fst ra)).

Fixpoint pairwise_sum (depth : nat) (a : list num) : num :=
  let n := length a in
  if n <? 8 then fold_left add a negzero
  else if n <=? 128 then sum_block a
  else match depth with
       | O => fold_left add a negzero
       | S depth' =>
           let n2 := n / 2 - (n / 2) mod 8 in
           add (pairwise_sum depth' (firstn n2 a)) (pairwise_sum depth' (skipn n2 a))
       end.

(** [numpy.sum(a)] over all the cells of a contiguous array: the
    accumulator starts at [0.0] and takes the pairwise sum of the cells
    (a run of [n] cells is halved fewer than [n] times). *)
Definition sum (a : list (list num)) : num :=
  add zero (pairwise_sum (length (concat a)) (concat a)).

(** [numpy.random.randint(n)]: the ambient generator hands out a natural
    number, reduced into [0, n); there is nothing to draw from when
    [n = 0]. *)
Definition randint (n : nat) (r : nat) : outcome nat :=
  if n =? 0 then Raise ValueError else Ret (r mod n).

End Np.

Import Np.

(** ** Matplotlib: the calls are recorded *)

Inductive plt :=
| Plot (xs ys : list num) (fmt : string)
| Show.

(** What a Python function hands back to its caller. *)
Inductive pyvalue :=
| PyNone
| PyPair (assignment : list nat) (centroids : list (list num)).

(** ** The notebook *)

(** [children, women, men = 20, 45, 35; sample = children + women + men] *)
Definition children : nat := 20.
Definition women : nat := 45.
Definition men : nat := 35.
Definition demo_sample : nat := children + women + men.

Section Notebook.

(** The module-level global [sample]. *)
Variable sample : nat.

(** [[
    def all_dist(observation, data):
        return numpy.sqrt((data[0, :] - observation[0])**2
                          + (data[1, :] - observation[1])**2)
    ]] *)
Definition all_dist (observation : list num) (data : ndarray) : outcome (list num) :=
  x <- row 0 data ;;
  o0 <- item 0 observation ;;
  y <- row 1 data ;;
  o1 <- item 1 observation ;;
  Ret (map (fun ab =>
              sqrt (add (square (sub (fst ab) o0))
                        (square (sub (snd ab) o1))))
           (combine x y)).

(** The variables of [cluster] that are live when an iteration ends. *)
Record locals := mk_locals {
  distances : list (list num);
  winners : list nat;
  clusters : list ndarray;
  prev_centroids : list (list num);
  centroids : list (list num)
}.

(** [[
    distances = numpy.empty((k,sample))
    for d in range(k):
        distances[d, :] = all_dist(centroids[d], data)
    ]] *)
Definition fill_distances (data : ndarray) (k : Z) (cs : list (list num))
  : outcome (list (list num)) :=
  _ <- empty k sample ;;
  mapM (fun d => c <- item d cs ;;
                 v <- all_dist c data ;;
                 broadcast_row sample v)
       (range k).

(** [[ clusters = [data[:, winners == i] for i in range(k)] ]] *)
Definition split (data : ndarray) (k : Z) (ws : list nat) : outcome (list ndarray) :=
  mapM (fun i => compress (map (Nat.eqb i) ws) data) (range k).

(** [[ numpy.sum(prev_centroids-centroids) == 0 ]] *)
Definition unchanged (prev cur : list (list num)) : bool :=
  is_zero (sum (sub2 prev cur)).

(** One pass through the body of the [while] loop; the flag is [done]. *)
Definition iteration (data : ndarray) (k : Z) (cs : list (list num))
  : outcome (locals * bool) :=
  ds <- fill_distances data k cs ;;
  ws <- argmin_axis0 sample ds ;;
  cl <- split data k ws ;;
  let prev := cs in
  let cs' := map average_axis1 cl in
  Ret (mk_locals ds ws cl prev cs', unchanged prev cs').

(** [[ while not done: ... ]] *)
Fixpoint while_not_done (fuel : nat) (data : ndarray) (k : Z) (cs : list (list num))
  : outcome locals :=
  match fuel with
  | O => Timeout
  | S fuel' =>
      r <- iteration data k cs ;;
      if snd r then Ret (fst r)
      else while_not_done fuel' data k (centroids (fst r))
  end.

(** [[ numpy.array([data[:, numpy.random.randint(sample)] for _ in range(k)]) ]]
    The [i]-th call of the generator yields [rnd i]. *)
Definition initial_centroids (data : ndarray) (k : Z) (rnd : nat -> nat)
  : outcome (list (list num)) :=
  mapM (fun i => r <- randint sample (rnd i) ;;
                 column r data)
       (range k).

(** [[
    for cluster, color in zip(clusters, ['go', 'ro', 'bo']):
        plt.plot(cluster[0, :], cluster[1, :], color)
    plt.show()
    ]] *)
Definition colors : list string := ["go"%string; "ro"%string; "bo"%string].

Definition plot_clusters (cl : list ndarray) : outcome (list plt) :=
  ps <- mapM (fun cc => x <- row 0 (fst cc) ;;
                        y <- row 1 (fst cc) ;;
                        Ret (Plot x y (snd cc)))
             (combine cl colors) ;;
  Ret (ps ++ [Show]).

(** The loop of [cluster], from the seeding to the exit of the [while]. *)
Definition cluster_loop (data : ndarray) (k : Z) (rnd : nat -> nat) (fuel : nat)
  : outcome locals :=
  cs <- initial_centroids data k rnd ;;
  while_not_done fuel data k cs.

(** [def cluster(data, k)]: no [return] statement, so the caller gets
    [None]; what is left of the run is the drawing. *)
Definition cluster (data : ndarray) (k : Z) (rnd : nat -> nat) (fuel : nat)
  : outcome (pyvalue * list plt) :=
  st <- cluster_loop data k rnd fuel ;;
  ps <- plot_clusters (clusters st) ;;
  Ret (PyNone, ps).

End Notebook.

(** ** Notions used in the statements *)

(** The comparisons of float64; none holds when a side is NaN. *)
Definition fle (a b : num) : Prop := SFleb a b = true.
Definition flt (a b : num) : Prop := SFltb a b = true.
Definition feq (a b : num) : Prop := SFeqb a b = true.

(** A zero of either sign; a number that is not negative (or the positive
    infinity). *)
Definition iszero (a : num) : bool :=
  match a with S754_zero _ => true | _ => false end.

Definition nonneg (a : num) : bool :=
  match a with
  | S754_zero _ | S754_finite false _ _ | S754_infinity false => true
  | _ => false
  end.

(** A value with the sign bit [s]: a zero, a finite number or an infinity. *)
Definition signed (s : bool) (a : num) : Prop :=
  match a with
  | S754_zero s' | S754_finite s' _ _ | S754_infinity s' => s' = s
  | NaN => False
  end.

(** The order of float64 read on keys: the comparison of two values that
    are not NaN is the lexicographic comparison of their keys. *)
Definition key (a : num) : Z * Z * Z :=
  match a with
  | S754_infinity true => (-2, 0, 0)
  | S754_finite true m e => (-1, - e, - Zpos m)
  | S754_zero _ => (0, 0, 0)
  | S754_finite false m e => (1, e, Zpos m)
  | S754_infinity false => (2, 0, 0)
  | NaN => (0, 0, 0)
  end%Z.

Definition klt (a b : Z * Z * Z) : Prop :=
  (fst (fst a) < fst (fst b) \/
   (fst (fst a) = fst (fst b) /\
    (snd (fst a) < snd (fst b) \/
     (snd (fst a) = snd (fst b) /\ snd a < snd b))))%Z.

(** A centroid with NaN among the two coordinates [all_dist] reads. *)
Definition nan01 (c : list num) : bool :=
  isnan (nth 0 c NaN) || isnan (nth 1 c NaN).

(** The point stored in column [p]. *)
Definition point (data : ndarray) (p : nat) : list num :=
  map (fun r => nth p r zero) (rows data).

(** The distance of the point [(x, y)] to a centroid, as [all_dist]
    computes it: on the first two coordinates, in float64. *)
Definition dist2 (x y : num) (c : list num) : num :=
  sqrt (add (square (sub x (nth 0 c NaN))) (square (sub y (nth 1 c NaN)))).

(** The rational a finite float64 stands for (0 for the others). *)
Definition Qval (a : num) : Q :=
  match a with
  | S754_finite s m e => (inject_Z (cond_Zopp s (Zpos m)) * Qpower 2 e)%Q
  | _ => 0%Q
  end.

Definition Qsum (l : list Q) : Q := fold_right Qplus 0%Q l.

(** The squared Euclidean distance of a point to a centroid over all the
    coordinates they have, as a rational. *)
Definition sqdist_all (p c : list num) : Q :=
  Qsum (map (fun xc => ((Qval (fst xc) - Qval (snd xc))
                        * (Qval (fst xc) - Qval (snd xc)))%Q)
            (combine p c)).


(** The squared distance of [(x, y)] to [(a, b)]. *)
Definition costQ (a b x y : Q) : Q :=
  ((x - a) * (x - a) + (y - b) * (y - b))%Q.

(** The squared distance of the point [(x, y)] to a centroid on the two
    coordinates [all_dist] reads, as a rational. *)
Definition sqdist2 (x y : num) (c : list num) : Q :=
  costQ (Qval (nth 0 c NaN)) (Qval (nth 1 c NaN)) (Qval x) (Qval y).





(** ** Sums cluster by cluster *)




(** The centroid array of [cluster]: [k] rows, one cell per row of the
    data. *)
Definition centroid_shape (data : ndarray) (k : Z) (cs : list (list num)) : Prop :=
  length cs = Z.to_nat k /\ Forall (fun c => length c = length (rows data)) cs.

(** Two centroid arrays with equal cells. *)
Definition same_centroids (prev cur : list (list num)) : Prop :=
  Forall2 (Forall2 feq) prev cur.

(** The drawing [cluster] leaves behind for the clusters [cl]. *)
Definition drawing (cl : list ndarray) : list plt :=
  map (fun cc => Plot (nth 0 (rows (fst cc)) []) (nth 1 (rows (fst cc)) []) (snd cc))
      (combine cl colors) ++ [Show].

(** ** The loop body in closed form

    On a dataset with its two rows and [sample] columns the loop body
    raises nothing; its variables are then given by these functions. *)

(** NumPy's argmin on a non-empty one-dimensional array. *)
Definition first_min (ip : list num) : nat :=
  match ip with
  | [] => 0
  | mp :: ip' => if isnan mp then 0 else argmin_scan mp 0 1 ip'
  end.

Definition dist_matrix (data : ndarray) (cs : list (list num)) : list (list num) :=
  map (fun c => map (fun ab => dist2 (fst ab) (snd ab) c)
                    (combine (nth 0 (rows data) []) (nth 1 (rows data) [])))
      cs.

Definition nearest (x y : num) (cs : list (list num)) : nat :=
  first_min (map (fun c => dist2 x y c) cs).

Definition assign (data : ndarray) (cs : list (list num)) : list nat :=
  map (fun p => nearest (nth p (nth 0 (rows data) []) zero)
                        (nth p (nth 1 (rows data) []) zero) cs)
      (seq 0 (ncols data)).

Definition members (data : ndarray) (ws : list nat) (i : nat) : ndarray :=
  mk_ndarray (count_true (map (Nat.eqb i) ws))
             (map (select (map (Nat.eqb i) ws)) (rows data)).

Definition groups (data : ndarray) (k : Z) (ws : list nat) : list ndarray :=
  map (members data ws) (range k).

Definition recompute (data : ndarray) (k : Z) (cs : list (list num)) : list (list num) :=
  map average_axis1 (groups data k (assign data cs)).

(** ** The seeding in closed form *)

(** The centroids the seeding produces: the points at the drawn columns. *)
Definition seeds (data : ndarray) (k : Z) (rnd : nat -> nat) : list (list num) :=
  map (fun i => point data (rnd i mod ncols data)) (range k).

(** No two columns are at computed distance zero from one another (two
    points that differ can be: the squares of tiny differences
    underflow). *)
Definition separated (data : ndarray) : Prop :=
  forall p q, p < ncols data -> q < ncols data -> p <> q ->
    is_zero (dist2 (nth p (nth 0 (rows data) []) zero)
                   (nth p (nth 1 (rows data) []) zero) (point data q)) = false.

(** The first [n] draws fall on [n] different columns. *)
Definition distinct_draws (n : nat) (rnd : nat -> nat) : Prop :=
  forall i j, i < n -> j < n -> rnd i mod n = rnd j mod n -> i = j.

(** The cluster made of the single column [q]. *)
Definition singleton (data : ndarray) (q : nat) : ndarray :=
  mk_ndarray 1 (map (fun r => [nth q r zero]) (rows data)).

(** ** Small datasets *)

(** A row of integers. *)
Definition ints (l : list Z) : list num := map of_Z l.

(** A single point. *)
Definition one_point : ndarray :=
  mk_ndarray 1 [ints [0]; ints [0]]%Z.

(** Two points of the plane. *)
Definition two_points : ndarray :=
  mk_ndarray 2 [ints [0; 2]; ints [2; 0]]%Z.

(** Three points of the plane. *)
Definition three_points : ndarray :=
  mk_ndarray 3 [ints [0; 4; 5]; ints [0; 0; 0]]%Z.

(** Four points of the plane; the generator draws columns 0 and 3. *)
Definition four_points : ndarray :=
  mk_ndarray 4 [ints [1; 4; 2; 3]; ints [3; 0; 4; 3]]%Z.

Definition draws_0_3 (i : nat) : nat :=
  match i with 0 => 0 | _ => 3 end.

(** Two points of the plane so close that the square of their difference
    underflows: [(0, 0)] and [(2 ^ -600, 0)]. *)
Definition close_points : ndarray :=
  mk_ndarray 2 [[zero; dyadic 1 (-600)]; [zero; zero]].

(** Two points whose first coordinates add up to more than float64
    holds: both at the largest finite number. *)
Definition huge_points : ndarray :=
  mk_ndarray 2 [[dyadic (2 ^ 53 - 1) 971; dyadic (2 ^ 53 - 1) 971]; [zero; zero]].

(** Three points of the plane, two of them far from the origin:
    [(10 ^ 8, 1)], [(10 ^ 8, 0)] and [(0, 0)]. *)
Definition far_points : ndarray :=
  mk_ndarray 3 [ints [100000000; 100000000; 0]; ints [1; 0; 0]]%Z.


(** Three points with a third coordinate. *)
Definition three_points_3d : ndarray :=
  mk_ndarray 3 [ints [0; 3; 1]; ints [0; 0; 0]; ints [0; 0; 100]]%Z.



(** ** Running Python code: general facts *)

Lemma bind_ret (A B : Type) (c : outcome A) (f : A -> outcome B) (b : B) :
  bind c f = Ret b -> exists a, c = Ret a /\ f a = Ret b.
Proof.
  destruct c as [a| |]; simpl; intro H; try discriminate.
  exists a; split; [reflexivity | exact H].
Qed.

Ltac inv_ret H :=
  let a := fresh "a" in
  let Ha := fresh "H" a in
  apply bind_ret in H; destruct H as [a [Ha H]].

Lemma mapM_Forall2 (A B : Type) (f : A -> outcome B) (l : list A) (bs : list B) :
  mapM f l = Ret bs -> Forall2 (fun a b => f a = Ret b) l bs.
Proof.
  revert bs; induction l as [|a l IH]; simpl; intros bs H.
  - injection H as <-. constructor.
  - inv_ret H. inv_ret H. injection H as <-.
    constructor; [assumption | apply IH; assumption].
Qed.

Lemma mapM_map (A B : Type) (f : A -> outcome B) (g : A -> B) (l : list A) :
  (forall a, In a l -> f a = Ret (g a)) -> mapM f l = Ret (map g l).
Proof.
  induction l as [|a l IH]; simpl; intro H; [reflexivity|].
  rewrite (H a (or_introl eq_refl)); simpl.
  rewrite IH; [reflexivity | intros; apply H; right; assumption].
Qed.

Lemma mapM_length (A B : Type) (f : A -> outcome B) (l : list A) (bs : list B) :
  mapM f l = Ret bs -> length bs = length l.
Proof.
  intro H. apply mapM_Forall2 in H. symmetry. eapply Forall2_length; eassumption.
Qed.

Lemma range_length (k : Z) : length (range k) = Z.to_nat k.
Proof. apply length_seq. Qed.

Lemma range_In (k : Z) (i : nat) : In i (range k) <-> (Z.of_nat i < k)%Z.
Proof. unfold range. rewrite in_seq. lia. Qed.

Lemma range_nil (k : Z) : (k < 1)%Z -> range k = [].
Proof. intro H. unfold range. replace (Z.to_nat k) with 0 by lia. reflexivity. Qed.

Lemma range_cons (k : Z) : (1 <= k)%Z -> range k = 0 :: seq 1 (Z.to_nat k - 1).
Proof.
  intro H. unfold range.
  replace (Z.to_nat k) with (S (Z.to_nat k - 1)) at 1 by lia. reflexivity.
Qed.

Lemma item_nth (A : Type) (i : nat) (l : list A) (d : A) :
  i < length l -> item i l = Ret (nth i l d).
Proof.
  intro H. unfold item. rewrite (nth_error_nth' l d H). reflexivity.
Qed.

(** ** The loop of [cluster]: inversion and shapes *)

Lemma iteration_ret (sample : nat) (data : ndarray) (k : Z) (cs : list (list num))
      (st : locals) (b : bool) :
  iteration sample data k cs = Ret (st, b) ->
  exists ds ws cl,
    fill_distances sample data k cs = Ret ds /\
    argmin_axis0 sample ds = Ret ws /\
    split data k ws = Ret cl /\
    st = mk_locals ds ws cl cs (map average_axis1 cl) /\
    b = unchanged cs (map average_axis1 cl).
Proof.
  unfold iteration. intro H.
  inv_ret H. inv_ret H. inv_ret H. injection H as <- <-.
  exists a, a0, a1. repeat split; assumption.
Qed.

Lemma while_not_done_ret (sample fuel : nat) (data : ndarray) (k : Z)
      (cs : list (list num)) (st : locals) :
  while_not_done sample fuel data k cs = Ret st ->
  exists cs', iteration sample data k cs' = Ret (st, true).
Proof.
  revert cs; induction fuel as [|fuel IH]; simpl; intros cs H; [discriminate|].
  inv_ret H. destruct a as [st' b]; simpl in H. destruct b.
  - injection H as <-. exists cs; assumption.
  - apply IH in H. assumption.
Qed.

Lemma cluster_loop_ret (sample fuel : nat) (data : ndarray) (k : Z)
      (rnd : nat -> nat) (st : locals) :
  cluster_loop sample data k rnd fuel = Ret st ->
  exists cs', iteration sample data k cs' = Ret (st, true).
Proof.
  unfold cluster_loop. intro H. inv_ret H.
  eapply while_not_done_ret; eassumption.
Qed.

Lemma broadcast_row_length (A : Type) (n : nat) (v r : list A) :
  broadcast_row n v = Ret r -> length r = n.
Proof.
  unfold broadcast_row. destruct (length v =? n) eqn:E.
  - intro H; injection H as <-. apply Nat.eqb_eq; assumption.
  - destruct v as [|x [|y v]]; intro H; try discriminate.
    injection H as <-. apply repeat_length.
Qed.

Lemma all_dist_ret (o : list num) (data : ndarray) (v : list num) :
  all_dist o data = Ret v ->
  exists x y rest o0 o1 orest,
    rows data = x :: y :: rest /\ o = o0 :: o1 :: orest /\
    v = map (fun ab => sqrt (add (square (sub (fst ab) o0))
                                 (square (sub (snd ab) o1))))
            (combine x y).
Proof.
  unfold all_dist, row, item. intro H.
  destruct (rows data) as [|x [|y rest]]; simpl in H; try discriminate;
    destruct o as [|o0 [|o1 orest]]; simpl in H; try discriminate.
  injection H as <-. exists x, y, rest, o0, o1, orest. repeat split.
Qed.

Lemma fill_distances_ret (sample : nat) (data : ndarray) (k : Z)
      (cs : list (list num)) (ds : list (list num)) :
  fill_distances sample data k cs = Ret ds ->
  (0 <= k)%Z /\
  Forall2 (fun d r => exists c v, item d cs = Ret c /\ all_dist c data = Ret v /\
                                  broadcast_row sample v = Ret r)
          (range k) ds.
Proof.
  unfold fill_distances, empty. intro H. inv_ret H.
  destruct (k <? 0)%Z eqn:E; [discriminate|]. split; [lia|].
  apply mapM_Forall2 in H.
  eapply Forall2_impl; [|exact H]. simpl. intros d r Hd.
  inv_ret Hd. inv_ret Hd. eauto.
Qed.

Lemma argmin_axis0_ret (n : nat) (m : list (list num)) (ws : list nat) :
  argmin_axis0 n m = Ret ws -> m <> [] /\ length ws = n.
Proof.
  unfold argmin_axis0. destruct m as [|r m]; [discriminate|].
  intro H. split; [discriminate|].
  apply mapM_length in H. rewrite length_seq in H. assumption.
Qed.

Lemma compress_ret (mask : list bool) (a c : ndarray) :
  compress mask a = Ret c ->
  length mask = ncols a /\ ncols c = count_true mask /\
  rows c = map (select mask) (rows a).
Proof.
  unfold compress. destruct (length mask =? ncols a) eqn:E; [|discriminate].
  intro H; injection H as <-. apply Nat.eqb_eq in E. repeat split; assumption.
Qed.

(** What a completed pass through the loop body tells about its input:
    at least one cluster was asked for, the data has its two rows, and it
    has as many columns as [sample] says. *)
Lemma iteration_facts (sample : nat) (data : ndarray) (k : Z) (cs : list (list num))
      (st : locals) (b : bool) :
  iteration sample data k cs = Ret (st, b) ->
  (1 <= k)%Z /\ 2 <= length (rows data) /\ ncols data = sample /\
  length (distances st) = Z.to_nat k /\
  Forall (fun r => length r = sample) (distances st) /\
  length (winners st) = sample /\
  Forall2 (fun i c => compress (map (Nat.eqb i) (winners st)) data = Ret c)
          (range k) (clusters st) /\
  prev_centroids st = cs /\
  centroids st = map average_axis1 (clusters st) /\
  b = unchanged cs (centroids st).
Proof.
  intro H. apply iteration_ret in H.
  destruct H as (ds & ws & cl & Hds & Hws & Hcl & -> & ->). simpl.
  apply fill_distances_ret in Hds. destruct Hds as [Hk Hds].
  apply argmin_axis0_ret in Hws. destruct Hws as [Hne Hlen].
  assert (Hk1 : (1 <= k)%Z).
  { destruct (Z_lt_le_dec k 1) as [Hlt|]; [|assumption].
    rewrite (range_nil Hlt) in Hds. inversion Hds. congruence. }
  apply mapM_Forall2 in Hcl.
  split; [assumption|].
  rewrite (range_cons Hk1) in Hds, Hcl.
  inversion Hds as [|d r l1 l2 (c & v & _ & Hv & _) _]; subst.
  inversion Hcl as [|i c0 l3 l4 Hc0 _]; subst.
  apply all_dist_ret in Hv. destruct Hv as (x & y & rest & _ & _ & _ & Hrows & _).
  apply compress_ret in Hc0. destruct Hc0 as (Hmask & _).
  rewrite length_map in Hmask.
  rewrite <- (range_cons Hk1) in Hds, Hcl.
  repeat split; try assumption; try reflexivity.
  - rewrite Hrows; simpl; lia.
  - congruence.
  - rewrite <- (Forall2_length Hds). apply range_length.
  - clear - Hds. induction Hds as [|d' r' l1' l2' (c' & v' & _ & _ & Hr) _ IH]; constructor.
    + eapply broadcast_row_length; eassumption.
    + assumption.
Qed.

Lemma clusters_rows (sample : nat) (data : ndarray) (k : Z) (cs : list (list num))
      (st : locals) (b : bool) :
  iteration sample data k cs = Ret (st, b) ->
  Forall (fun c => length (rows c) = length (rows data)) (clusters st).
Proof.
  intro H. apply iteration_facts in H.
  destruct H as (_ & _ & _ & _ & _ & _ & Hcl & _).
  induction Hcl as [|i c l1 l2 Hc _ IH]; constructor; [|assumption].
  apply compress_ret in Hc. destruct Hc as (_ & _ & ->). apply length_map.
Qed.

Lemma plot_clusters_drawing (cl : list ndarray) :
  Forall (fun c => 2 <= length (rows c)) cl ->
  plot_clusters cl = Ret (drawing cl).
Proof.
  intro H. unfold plot_clusters, drawing.
  rewrite (mapM_map _ (fun cc => Plot (nth 0 (rows (fst cc)) [])
                                     (nth 1 (rows (fst cc)) []) (snd cc))).
  - reflexivity.
  - intros [c col] Hin. apply in_combine_l in Hin.
    rewrite Forall_forall in H. specialize (H c Hin). simpl.
    unfold row. rewrite (item_nth (rows c) [] (i := 0)) by lia. simpl.
    rewrite (item_nth (rows c) [] (i := 1)) by lia. reflexivity.
Qed.

(** ** The loop body in closed form: proofs *)

Lemma map_nth_seq (A B : Type) (F : A -> B) (l : list A) (d : A) :
  map (fun i => F (nth i l d)) (seq 0 (length l)) = map F l.
Proof.
  apply (nth_ext _ _ (F d) (F d)).
  - rewrite !length_map, length_seq. reflexivity.
  - intros i Hi. rewrite length_map, length_seq in Hi.
    rewrite (map_nth F l d i).
    rewrite (nth_indep _ (F d) (F (nth (length l) l d))).
    + rewrite (map_nth (fun i => F (nth i l d)) (seq 0 (length l)) (length l) i).
      rewrite seq_nth by assumption. reflexivity.
    + rewrite length_map, length_seq. assumption.
Qed.

Lemma wf_lengths (a : ndarray) :
  wf a -> Forall (fun r => length r = ncols a) (rows a).
Proof.
  intro H. eapply Forall_impl; [|exact H]. simpl. intros r [Hr _]. exact Hr.
Qed.

Lemma wf_numbers (a : ndarray) :
  wf a -> Forall (Forall (fun x => number x = true)) (rows a).
Proof.
  intro H. eapply Forall_impl; [|exact H]. simpl. intros r [_ Hr]. exact Hr.
Qed.

Lemma argmin_first_min (ip : list num) :
  ip <> [] -> argmin ip = Ret (first_min ip).
Proof. destruct ip; [congruence | reflexivity]. Qed.

Section ClosedForm.

Variable sample : nat.
Variable data : ndarray.
Variable k : Z.
Variable cs : list (list num).

Hypothesis data_wf : wf data.
Hypothesis data_rows : 2 <= length (rows data).
Hypothesis data_cols : ncols data = sample.
Hypothesis k_pos : (1 <= k)%Z.
Hypothesis cs_shape : centroid_shape data k cs.

Lemma data_lengths : Forall (fun r => length r = ncols data) (rows data).
Proof. apply wf_lengths. exact data_wf. Qed.

Lemma combine_rows_length :
  length (combine (nth 0 (rows data) []) (nth 1 (rows data) [])) = sample.
Proof.
  pose proof data_lengths as Hl.
  destruct (rows data) as [|x [|y rest]]; simpl in *; try lia.
  inversion Hl as [|? ? Hx Hrest]; subst.
  inversion Hrest as [|? ? Hy _]; subst.
  rewrite length_combine. lia.
Qed.

Lemma all_dist_eq (c : list num) :
  length c = length (rows data) ->
  all_dist c data
  = Ret (map (fun ab => dist2 (fst ab) (snd ab) c)
             (combine (nth 0 (rows data) []) (nth 1 (rows data) []))).
Proof.
  intro Hc. unfold all_dist, row, item.
  destruct (rows data) as [|x [|y rest]]; simpl in *; try lia.
  destruct c as [|o0 [|o1 orest]]; simpl in *; try lia.
  reflexivity.
Qed.

Lemma fill_distances_eq :
  fill_distances sample data k cs = Ret (dist_matrix data cs).
Proof.
  destruct cs_shape as [Hlen Hrows].
  unfold fill_distances, empty.
  replace (k <? 0)%Z with false by (symmetry; apply Z.ltb_ge; lia). simpl.
  rewrite (mapM_map _ (fun d =>
             map (fun ab => dist2 (fst ab) (snd ab) (nth d cs []))
                 (combine (nth 0 (rows data) []) (nth 1 (rows data) [])))).
  - unfold range, dist_matrix. rewrite <- Hlen.
    rewrite (map_nth_seq
               (fun c => map (fun ab => dist2 (fst ab) (snd ab) c)
                             (combine (nth 0 (rows data) []) (nth 1 (rows data) [])))
               cs []).
    reflexivity.
  - intros d Hd. apply range_In in Hd.
    assert (Hd' : d < length cs) by lia.
    rewrite (item_nth cs [] Hd'). simpl.
    rewrite all_dist_eq.
    + simpl. unfold broadcast_row.
      rewrite length_map, combine_rows_length, Nat.eqb_refl. reflexivity.
    + rewrite Forall_forall in Hrows. apply Hrows. apply nth_In. assumption.
Qed.

Lemma dist_matrix_column (p : nat) :
  p < sample ->
  map (fun r => nth p r NaN) (dist_matrix data cs)
  = map (fun c => dist2 (nth p (nth 0 (rows data) []) zero)
                        (nth p (nth 1 (rows data) []) zero) c) cs.
Proof.
  intro Hp. unfold dist_matrix. rewrite map_map.
  apply map_ext. intro c.
  rewrite (nth_indep _ NaN (dist2 (fst (zero, zero)) (snd (zero, zero)) c)).
  - rewrite (map_nth (fun ab => dist2 (fst ab) (snd ab) c)).
    rewrite combine_nth; [reflexivity|].
    pose proof data_lengths as Hl.
    destruct (rows data) as [|x [|y rest]]; simpl in *; try lia.
    inversion Hl as [|? ? Hx Hrest]; subst.
    inversion Hrest as [|? ? Hy _]; subst. congruence.
  - rewrite length_map, combine_rows_length. assumption.
Qed.

Lemma cs_nonempty : cs <> [].
Proof.
  destruct cs_shape as [Hlen _]. intro E. rewrite E in Hlen. simpl in Hlen. lia.
Qed.

Lemma argmin_axis0_eq :
  argmin_axis0 sample (dist_matrix data cs) = Ret (assign data cs).
Proof.
  unfold argmin_axis0.
  destruct (dist_matrix data cs) as [|r m] eqn:E.
  - exfalso. apply cs_nonempty. unfold dist_matrix in E.
    destruct cs; [reflexivity | discriminate].
  - rewrite <- E. unfold assign. rewrite data_cols.
    rewrite (mapM_map _ (fun p => nearest (nth p (nth 0 (rows data) []) zero)
                                          (nth p (nth 1 (rows data) []) zero) cs)).
    + reflexivity.
    + intros p Hp. apply in_seq in Hp.
      rewrite dist_matrix_column by lia.
      apply argmin_first_min.
      intro Hnil. apply cs_nonempty. apply map_eq_nil in Hnil. assumption.
Qed.

Lemma assign_length : length (assign data cs) = sample.
Proof. unfold assign. rewrite length_map, length_seq. assumption. Qed.

Lemma split_eq (ws : list nat) :
  length ws = sample -> split data k ws = Ret (groups data k ws).
Proof.
  intro Hws. unfold split, groups. apply mapM_map.
  intros i _. unfold compress. rewrite length_map, Hws, data_cols, Nat.eqb_refl.
  reflexivity.
Qed.

(** One pass through the loop body on a well-shaped input. *)
Lemma iteration_eq :
  iteration sample data k cs
  = Ret (mk_locals (dist_matrix data cs) (assign data cs)
                   (groups data k (assign data cs)) cs (recompute data k cs),
         unchanged cs (recompute data k cs)).
Proof.
  unfold iteration. rewrite fill_distances_eq. simpl.
  rewrite argmin_axis0_eq. simpl.
  rewrite split_eq by apply assign_length. reflexivity.
Qed.

Lemma recompute_shape : centroid_shape data k (recompute data k cs).
Proof.
  unfold centroid_shape, recompute, groups. split.
  - rewrite !length_map. apply range_length.
  - rewrite map_map. apply Forall_map. apply Forall_forall. intros i _.
    unfold average_axis1, members. simpl. rewrite !length_map. reflexivity.
Qed.

End ClosedForm.


(** ** float64: facts used below *)

(** *** NaN is absorbing *)

Lemma add_nan_l (b : num) : add NaN b = NaN.
Proof. reflexivity. Qed.

Lemma add_nan_r (a : num) : add a NaN = NaN.
Proof. destruct a as [s|s| |s m e]; reflexivity. Qed.

Lemma sub_nan_l (b : num) : sub NaN b = NaN.
Proof. reflexivity. Qed.

Lemma sub_nan_r (a : num) : sub a NaN = NaN.
Proof. destruct a as [s|s| |s m e]; reflexivity. Qed.

Lemma square_nan : square NaN = NaN.
Proof. reflexivity. Qed.

Lemma sqrt_nan : sqrt NaN = NaN.
Proof. reflexivity. Qed.

Lemma isnan_eq (a : num) : isnan a = true -> a = NaN.
Proof. destruct a; simpl; intro H; try discriminate. reflexivity. Qed.

Lemma ge_nan_l (b : num) : ge NaN b = false.
Proof. destruct b; reflexivity. Qed.

Lemma ge_nan_r (a : num) : ge a NaN = false.
Proof. reflexivity. Qed.

Lemma is_zero_nan : is_zero NaN = false.
Proof. reflexivity. Qed.

Lemma fold_add_nan_acc (l : list num) : fold_left add l NaN = NaN.
Proof. induction l as [|a l IH]; simpl; [reflexivity | exact IH]. Qed.

Lemma fold_add_nan (l : list num) (a : num) :
  In NaN l -> fold_left add l a = NaN.
Proof.
  revert a; induction l as [|x l IH]; simpl; intros a H; [contradiction|].
  destruct H as [-> | H].
  - rewrite add_nan_r. apply fold_add_nan_acc.
  - apply IH. assumption.
Qed.

(** *** The order *)

Lemma compare_key (a b : num) :
  isnan a = false -> isnan b = false ->
  exists c, SFcompare a b = Some c /\
            (c = Lt <-> klt (key a) (key b)) /\
            (c = Eq <-> key a = key b) /\
            (c = Gt <-> klt (key b) (key a)).
Proof.
  intros Ha Hb.
  destruct a as [sa|sa| |sa ma ea]; try discriminate;
    destruct b as [sb|sb| |sb mb eb]; try discriminate;
    try destruct sa; try destruct sb; unfold klt; simpl;
    try (eexists; split; [reflexivity|];
         repeat split; intro H; try discriminate H; try lia; fail).
  - change (Pos.compare_cont Eq ma mb) with (Pos.compare ma mb).
    destruct (Z.compare_spec ea eb) as [E|E|E];
      [destruct (Pos.compare_spec ma mb) as [F|F|F]| |];
      eexists; (split; [reflexivity|]); simpl;
      repeat split; intro H; try discriminate H; try lia;
      try (injection H; lia); try (subst; reflexivity).
  - change (Pos.compare_cont Eq ma mb) with (Pos.compare ma mb).
    destruct (Z.compare_spec ea eb) as [E|E|E];
      [destruct (Pos.compare_spec ma mb) as [F|F|F]| |];
      eexists; (split; [reflexivity|]); simpl;
      repeat split; intro H; try discriminate H; try lia;
      try (injection H; lia); try (subst; reflexivity).
Qed.

Lemma fle_key (a b : num) :
  fle a b <-> isnan a = false /\ isnan b = false /\ ~ klt (key b) (key a).
Proof.
  unfold fle, SFleb. split.
  - intro H.
    assert (Ha : isnan a = false) by (destruct a; [reflexivity..|discriminate|reflexivity]).
    assert (Hb : isnan b = false)
      by (destruct b; try reflexivity; destruct a; discriminate).
    split; [assumption|]. split; [assumption|].
    destruct (compare_key a b Ha Hb) as (c & E & Hlt & Heq & Hgt).
    rewrite E in H. intro Hk. apply Hgt in Hk. subst c. discriminate.
  - intros (Ha & Hb & Hk).
    destruct (compare_key a b Ha Hb) as (c & E & Hlt & Heq & Hgt).
    rewrite E. destruct c; try reflexivity. exfalso. apply Hk. apply Hgt. reflexivity.
Qed.

Lemma flt_key (a b : num) :
  flt a b <-> isnan a = false /\ isnan b = false /\ klt (key a) (key b).
Proof.
  unfold flt, SFltb. split.
  - intro H.
    assert (Ha : isnan a = false) by (destruct a; [reflexivity..|discriminate|reflexivity]).
    assert (Hb : isnan b = false)
      by (destruct b; try reflexivity; destruct a; discriminate).
    split; [assumption|]. split; [assumption|].
    destruct (compare_key a b Ha Hb) as (c & E & Hlt & Heq & Hgt).
    rewrite E in H. apply Hlt. destruct c; try discriminate. reflexivity.
  - intros (Ha & Hb & Hk).
    destruct (compare_key a b Ha Hb) as (c & E & Hlt & Heq & Hgt).
    rewrite E. apply Hlt in Hk. subst c. reflexivity.
Qed.

Lemma feq_key (a b : num) :
  feq a b <-> isnan a = false /\ isnan b = false /\ key a = key b.
Proof.
  unfold feq, SFeqb. split.
  - intro H.
    assert (Ha : isnan a = false) by (destruct a; [reflexivity..|discriminate|reflexivity]).
    assert (Hb : isnan b = false)
      by (destruct b; try reflexivity; destruct a; discriminate).
    split; [assumption|]. split; [assumption|].
    destruct (compare_key a b Ha Hb) as (c & E & Hlt & Heq & Hgt).
    rewrite E in H. apply Heq. destruct c; try discriminate. reflexivity.
  - intros (Ha & Hb & Hk).
    destruct (compare_key a b Ha Hb) as (c & E & Hlt & Heq & Hgt).
    rewrite E. apply Heq in Hk. subst c. reflexivity.
Qed.

Ltac keys :=
  repeat match goal with
         | H : fle _ _ |- _ => apply fle_key in H; destruct H as (? & ? & H)
         | H : flt _ _ |- _ => apply flt_key in H; destruct H as (? & ? & H)
         | H : feq _ _ |- _ => apply feq_key in H; destruct H as (? & ? & H)
         end;
  try match goal with
      | |- fle _ _ => apply fle_key; split; [assumption|split; [assumption|]]
      | |- flt _ _ => apply flt_key; split; [assumption|split; [assumption|]]
      | |- feq _ _ => apply feq_key; split; [assumption|split; [assumption|]]
      end.

Lemma klt_cases (a b : Z * Z * Z) : klt a b \/ a = b \/ klt b a.
Proof.
  destruct a as [[a1 a2] a3], b as [[b1 b2] b3]. unfold klt. simpl.
  destruct (Z.lt_trichotomy a1 b1) as [H|[H|H]]; [lia| |lia].
  destruct (Z.lt_trichotomy a2 b2) as [H2|[H2|H2]]; [lia| |lia].
  destruct (Z.lt_trichotomy a3 b3) as [H3|[H3|H3]]; [lia| |lia].
  right. left. subst. reflexivity.
Qed.

Lemma klt_trans (a b c : Z * Z * Z) : klt a b -> klt b c -> klt a c.
Proof.
  destruct a as [[a1 a2] a3], b as [[b1 b2] b3], c as [[c1 c2] c3].
  unfold klt. simpl. lia.
Qed.

Lemma klt_irrefl (a : Z * Z * Z) : ~ klt a a.
Proof. destruct a as [[a1 a2] a3]. unfold klt. simpl. lia. Qed.

Lemma klt_le_trans (a b c : Z * Z * Z) : klt a b -> ~ klt c b -> klt a c.
Proof.
  intros H1 H2. destruct (klt_cases b c) as [H|[H|H]].
  - eapply klt_trans; eassumption.
  - subst. assumption.
  - contradiction.
Qed.

Lemma kle_trans (a b c : Z * Z * Z) : ~ klt b a -> ~ klt c b -> ~ klt c a.
Proof.
  intros H1 H2 H3. destruct (klt_cases a b) as [H|[H|H]].
  - apply H2. eapply klt_trans; eassumption.
  - subst. contradiction.
  - contradiction.
Qed.

Lemma fle_refl (a : num) : isnan a = false -> fle a a.
Proof. intro H. keys. apply klt_irrefl. Qed.

Lemma fle_trans (a b c : num) : fle a b -> fle b c -> fle a c.
Proof. intros H1 H2. keys. eapply kle_trans; eassumption. Qed.

Lemma flt_fle (a b : num) : flt a b -> fle a b.
Proof.
  intro H. keys. intro Hk. exact (klt_irrefl (klt_trans H Hk)).
Qed.

Lemma flt_irrefl (a : num) : ~ flt a a.
Proof. intro H. keys. exact (klt_irrefl H). Qed.

Lemma flt_fle_trans (a b c : num) : flt a b -> fle b c -> flt a c.
Proof. intros H1 H2. keys. eapply klt_le_trans; eassumption. Qed.

Lemma fle_flt_trans (a b c : num) : fle a b -> flt b c -> flt a c.
Proof.
  intros H1 H2. keys.
  destruct (klt_cases (key a) (key b)) as [Hk|[Hk|Hk]].
  - eapply klt_trans; eassumption.
  - rewrite Hk. assumption.
  - contradiction.
Qed.

Lemma ge_fle (x mp : num) : ge x mp = true <-> fle mp x.
Proof. reflexivity. Qed.

Lemma not_ge_flt (x mp : num) :
  isnan x = false -> isnan mp = false -> ge x mp = false -> flt x mp.
Proof.
  intros Hx Hmp H. keys.
  destruct (klt_cases (key x) (key mp)) as [Hk|[Hk|Hk]]; [assumption| |].
  - exfalso. assert (Hle : fle mp x).
    { apply fle_key. repeat split; try assumption. rewrite Hk. apply klt_irrefl. }
    unfold ge, fle in *. congruence.
  - exfalso. assert (Hle : fle mp x).
    { apply fle_key. repeat split; try assumption.
      intro Hc. exact (klt_irrefl (klt_trans Hk Hc)). }
    unfold ge, fle in *. congruence.
Qed.

Lemma feq_fle (a b : num) : feq a b -> fle a b.
Proof. intro H. keys. rewrite H. apply klt_irrefl. Qed.

Lemma fle_antisym (a b : num) : fle a b -> fle b a -> feq a b.
Proof.
  intros H1 H2. keys.
  destruct (klt_cases (key a) (key b)) as [Hk|[Hk|Hk]];
    [contradiction|assumption|contradiction].
Qed.

(** *** Results that are not NaN *)

Lemma shr_1_nonneg (mrs : shr_record) :
  (0 <= shr_m mrs)%Z -> (0 <= shr_m (shr_1 mrs))%Z.
Proof.
  destruct mrs as [m r s]. simpl. intro H.
  destruct m as [|[p|p|]|p]; simpl; lia.
Qed.

Lemma iter_shr_nonneg (p : positive) (mrs : shr_record) :
  (0 <= shr_m mrs)%Z -> (0 <= shr_m (iter_pos shr_1 p mrs))%Z.
Proof.
  revert mrs; induction p as [p IH|p IH|]; intros mrs H; simpl.
  - apply IH. apply IH. apply shr_1_nonneg. assumption.
  - apply IH. apply IH. assumption.
  - apply shr_1_nonneg. assumption.
Qed.

Lemma shr_fexp_nonneg (m e : Z) (l : location) :
  (0 <= m)%Z -> (0 <= shr_m (fst (shr_fexp prec emax m e l)))%Z.
Proof.
  intro H. unfold shr_fexp, shr.
  assert (H0 : (0 <= shr_m (shr_record_of_loc m l))%Z)
    by (destruct l as [|[]]; simpl; assumption).
  destruct (fexp prec emax (Zdigits2 m + e) - e)%Z; simpl; try assumption.
  apply iter_shr_nonneg. assumption.
Qed.

Lemma round_nonneg (m : Z) (l : location) :
  (0 <= m)%Z -> (0 <= round_nearest_even m l)%Z.
Proof.
  intro H. destruct l as [|[]]; simpl; try assumption; [|lia].
  destruct (Z.even m); lia.
Qed.

Lemma binary_round_aux_signed (s : bool) (mx ex : Z) (lx : location) :
  (0 <= mx)%Z -> signed s (binary_round_aux prec emax s mx ex lx).
Proof.
  intro H. unfold binary_round_aux.
  pose proof (shr_fexp_nonneg ex lx H) as H1.
  destruct (shr_fexp prec emax mx ex lx) as [mrs' e']. simpl in H1.
  pose proof (shr_fexp_nonneg e' loc_Exact
                (round_nonneg (loc_of_shr_record mrs') H1)) as H2.
  destruct (shr_fexp prec emax _ e' loc_Exact) as [mrs'' e'']. simpl in H2.
  destruct (shr_m mrs'') as [|m|m]; [reflexivity | | simpl in H2; lia].
  destruct (e'' <=? emax - prec)%Z; reflexivity.
Qed.

Lemma binary_round_signed (s : bool) (m : positive) (e : Z) :
  signed s (binary_round prec emax s m e).
Proof.
  unfold binary_round. destruct (shl_align m e _) as [mz ez].
  apply binary_round_aux_signed. lia.
Qed.

Lemma signed_not_nan (s : bool) (a : num) : signed s a -> isnan a = false.
Proof. destruct a; simpl; intro H; try reflexivity. contradiction. Qed.

Lemma signed_nonneg (a : num) : signed false a -> nonneg a = true.
Proof. destruct a as [s|s| |s m e]; simpl; intro H; subst; try reflexivity. contradiction. Qed.

Lemma binary_normalize_not_nan (m e : Z) (sz : bool) :
  isnan (binary_normalize prec emax m e sz) = false.
Proof.
  destruct m as [|m|m]; simpl; [reflexivity| |];
    eapply signed_not_nan; apply binary_round_signed.
Qed.

Lemma sub_not_nan (x y : num) :
  isfinite x = true -> isnan y = false -> isnan (sub x y) = false.
Proof.
  destruct x as [sx|sx| |sx mx ex]; try discriminate;
    destruct y as [sy|sy| |sy my ey]; try discriminate; intros _ _;
    try reflexivity.
  - destruct sx, sy; reflexivity.
  - apply binary_normalize_not_nan.
Qed.

Lemma square_nonneg (x : num) : isnan x = false -> nonneg (square x) = true.
Proof.
  destruct x as [s|s| |s m e]; try discriminate; intros _;
    unfold square, mul; simpl.
  - destruct s; reflexivity.
  - destruct s; reflexivity.
  - apply signed_nonneg. rewrite xorb_nilpotent.
    apply binary_round_aux_signed. lia.
Qed.

Lemma add_nonneg (a b : num) :
  nonneg a = true -> nonneg b = true -> nonneg (add a b) = true.
Proof.
  destruct a as [sa|[|]| |[|] ma ea]; try discriminate;
    destruct b as [sb|[|]| |[|] mb eb]; try discriminate; intros _ _;
    try reflexivity.
  - destruct sa, sb; reflexivity.
  - unfold add, SFadd. simpl cond_Zopp. simpl Z.add.
    apply signed_nonneg. apply binary_round_signed.
Qed.

Lemma sqrt_nonneg (a : num) : nonneg a = true -> nonneg (sqrt a) = true.
Proof.
  destruct a as [s|[|]| |[|] m e]; try discriminate; intros _; try reflexivity.
  unfold sqrt, SFsqrt, SFsqrt_core_binary.
  set (m' := match (e - 2 * _)%Z with Z0 => Zpos m | Zpos _ => _ | Zneg _ => 0%Z end).
  assert (Hm' : (0 <= m')%Z).
  { subst m'. destruct (e - 2 * _)%Z; try lia. apply Z.shiftl_nonneg. lia. }
  pose proof (Z.sqrtrem_spec m' Hm') as Hs.
  destruct (Z.sqrtrem m') as [q r].
  apply signed_nonneg. apply binary_round_aux_signed. lia.
Qed.

Lemma nonneg_not_nan (a : num) : nonneg a = true -> isnan a = false.
Proof. destruct a; simpl; intro H; try reflexivity. discriminate. Qed.

Lemma dist2_nonneg (x y : num) (c : list num) :
  isfinite x = true -> isfinite y = true -> nan01 c = false ->
  nonneg (dist2 x y c) = true.
Proof.
  intros Hx Hy Hc. unfold nan01 in Hc. apply orb_false_iff in Hc.
  destruct Hc as [H0 H1]. unfold dist2.
  apply sqrt_nonneg. apply add_nonneg; apply square_nonneg; apply sub_not_nan;
    assumption.
Qed.

Lemma dist2_isnan (x y : num) (c : list num) :
  nan01 c = true -> dist2 x y c = NaN.
Proof.
  unfold nan01, dist2. intro H. apply orb_true_iff in H. destruct H as [H|H];
    apply isnan_eq in H; rewrite H.
  - rewrite sub_nan_r, square_nan, add_nan_l. reflexivity.
  - rewrite sub_nan_r, square_nan, add_nan_r. reflexivity.
Qed.

(** *** Zeros *)

Lemma is_zero_iszero (a : num) : is_zero a = iszero a.
Proof. destruct a as [s|[|]| |[|] m e]; reflexivity. Qed.

Lemma sub_self (x : num) : isfinite x = true -> sub x x = zero.
Proof.
  destruct x as [s|s| |s m e]; try discriminate; intros _.
  - destruct s; reflexivity.
  - unfold sub, SFsub. rewrite Z.sub_diag. reflexivity.
Qed.

Lemma add_zeros (a b : num) :
  iszero a = true -> iszero b = true -> iszero (add a b) = true.
Proof.
  destruct a as [sa|sa| |sa ma ea]; try discriminate;
    destruct b as [sb|sb| |sb mb eb]; try discriminate; intros _ _.
  destruct sa, sb; reflexivity.
Qed.

Lemma fold_add_zeros (l : list num) (a : num) :
  iszero a = true -> Forall (fun x => iszero x = true) l ->
  iszero (fold_left add l a) = true.
Proof.
  intros Ha H. revert a Ha. induction H as [|x l Hx _ IH]; intros a Ha; simpl;
    [assumption|].
  apply IH. apply add_zeros; assumption.
Qed.

(** *** The pairwise sum *)

Lemma add8_length (r b : list num) :
  length r = length b -> length (add8 r b) = length r.
Proof. intro H. unfold add8. rewrite length_map, length_combine. lia. Qed.

Lemma add8_nan (r b : list num) :
  length r = length b -> In NaN r \/ In NaN b -> In NaN (add8 r b).
Proof.
  unfold add8. revert b; induction r as [|x r IH]; intros [|y b] Hlen H;
    simpl in *; try discriminate.
  - destruct H; contradiction.
  - destruct H as [[-> | H] | [-> | H]].
    + left. apply add_nan_l.
    + right. apply IH; [lia | left; assumption].
    + left. apply add_nan_r.
    + right. apply IH; [lia | right; assumption].
Qed.

Lemma add8_zeros (r b : list num) :
  Forall (fun x => iszero x = true) r -> Forall (fun x => iszero x = true) b ->
  Forall (fun x => iszero x = true) (add8 r b).
Proof.
  unfold add8. intro Hr. revert b. induction Hr as [|x r Hx _ IH]; intros b Hb;
    simpl; [constructor|].
  destruct Hb as [|y b Hy Hb]; simpl; constructor.
  - apply add_zeros; assumption.
  - apply IH. assumption.
Qed.

Lemma in_firstn_skipn (A : Type) (n : nat) (x : A) (l : list A) :
  In x l -> In x (firstn n l) \/ In x (skipn n l).
Proof.
  intro H. rewrite <- (firstn_skipn n l) in H. apply in_app_or. assumption.
Qed.

Lemma Forall_firstn (A : Type) (P : A -> Prop) (n : nat) (l : list A) :
  Forall P l -> Forall P (firstn n l).
Proof.
  intro H. rewrite <- (firstn_skipn n l) in H. apply Forall_app in H. apply H.
Qed.

Lemma Forall_skipn (A : Type) (P : A -> Prop) (n : nat) (l : list A) :
  Forall P l -> Forall P (skipn n l).
Proof.
  intro H. rewrite <- (firstn_skipn n l) in H. apply Forall_app in H. apply H.
Qed.

Lemma blocks_nan (n : nat) (r a : list num) :
  length r = 8 -> 8 * n <= length a -> In NaN r \/ In NaN a ->
  length (fst (blocks n r a)) = 8 /\
  (In NaN (fst (blocks n r a)) \/ In NaN (snd (blocks n r a))).
Proof.
  revert r a; induction n as [|n IH]; intros r a Hr Ha H; cbn [blocks fst snd].
  - split; assumption.
  - assert (Hf : length (firstn 8 a) = 8) by (rewrite length_firstn; lia).
    apply IH.
    + rewrite add8_length; [assumption | rewrite Hf; assumption].
    + rewrite length_skipn. lia.
    + destruct H as [H | H].
      * left. apply add8_nan; [rewrite Hf; assumption | left; assumption].
      * destruct (in_firstn_skipn 8 _ _ H) as [H1 | H2].
        -- left. apply add8_nan; [rewrite Hf; assumption | right; assumption].
        -- right. assumption.
Qed.

Lemma blocks_zeros (n : nat) (r a : list num) :
  Forall (fun x => iszero x = true) r -> Forall (fun x => iszero x = true) a ->
  length r = 8 -> 8 * n <= length a ->
  length (fst (blocks n r a)) = 8 /\
  Forall (fun x => iszero x = true) (fst (blocks n r a)) /\
  Forall (fun x => iszero x = true) (snd (blocks n r a)).
Proof.
  revert r a; induction n as [|n IH]; intros r a Hr Ha Hlen Hn;
    cbn [blocks fst snd].
  - repeat split; assumption.
  - assert (Hf : length (firstn 8 a) = 8) by (rewrite length_firstn; lia).
    apply IH.
    + apply add8_zeros; [assumption | apply Forall_firstn; assumption].
    + apply Forall_skipn. assumption.
    + rewrite add8_length; [assumption | rewrite Hf; assumption].
    + rewrite length_skipn. lia.
Qed.

Lemma tree8_nan (r : list num) : length r = 8 -> In NaN r -> tree8 r = NaN.
Proof.
  intros Hlen H.
  destruct r as [|r0 [|r1 [|r2 [|r3 [|r4 [|r5 [|r6 [|r7 [|r8 r]]]]]]]]];
    simpl in Hlen; try discriminate.
  unfold tree8. simpl nth.
  simpl in H. decompose [or] H; try contradiction; subst;
    rewrite ?add_nan_l, ?add_nan_r; reflexivity.
Qed.

Lemma tree8_zeros (r : list num) :
  length r = 8 -> Forall (fun x => iszero x = true) r -> iszero (tree8 r) = true.
Proof.
  intros Hlen H.
  destruct r as [|r0 [|r1 [|r2 [|r3 [|r4 [|r5 [|r6 [|r7 [|r8 r]]]]]]]]];
    simpl in Hlen; try discriminate.
  unfold tree8. simpl nth.
  repeat match goal with
         | H : Forall _ (_ :: _) |- _ => inversion H; subst; clear H
         end.
  repeat apply add_zeros; assumption.
Qed.

Lemma sum_block_nan (a : list num) :
  8 <= length a -> In NaN a -> sum_block a = NaN.
Proof.
  intros Hlen H. unfold sum_block.
  assert (Hf : length (firstn 8 a) = 8) by (rewrite length_firstn; lia).
  assert (Hdiv : 8 * (length a / 8) <= length a)
    by (apply Nat.Div0.mul_div_le).
  destruct (@blocks_nan (length a / 8 - 1) (firstn 8 a) (skipn 8 a)) as [Hr Hnan].
  - assumption.
  - rewrite length_skipn. lia.
  - destruct (in_firstn_skipn 8 _ _ H); [left | right]; assumption.
  - destruct Hnan as [H1 | H2].
    + rewrite (tree8_nan _ Hr H1). apply fold_add_nan_acc.
    + apply fold_add_nan. assumption.
Qed.

Lemma sum_block_zeros (a : list num) :
  8 <= length a -> Forall (fun x => iszero x = true) a ->
  iszero (sum_block a) = true.
Proof.
  intros Hlen H. unfold sum_block.
  assert (Hf : length (firstn 8 a) = 8) by (rewrite length_firstn; lia).
  assert (Hdiv : 8 * (length a / 8) <= length a)
    by (apply Nat.Div0.mul_div_le).
  destruct (@blocks_zeros (length a / 8 - 1) (firstn 8 a) (skipn 8 a))
    as (Hr & Hz & Hrest).
  - apply Forall_firstn. assumption.
  - apply Forall_skipn. assumption.
  - assumption.
  - rewrite length_skipn. lia.
  - apply fold_add_zeros; [apply tree8_zeros|]; assumption.
Qed.

Lemma pairwise_sum_O (a : list num) :
  pairwise_sum 0 a
  = if length a <? 8 then fold_left add a negzero
    else if length a <=? 128 then sum_block a
         else fold_left add a negzero.
Proof. reflexivity. Qed.

Lemma pairwise_sum_S (depth : nat) (a : list num) :
  pairwise_sum (S depth) a
  = if length a <? 8 then fold_left add a negzero
    else if length a <=? 128 then sum_block a
         else add (pairwise_sum depth
                     (firstn (length a / 2 - (length a / 2) mod 8) a))
                  (pairwise_sum depth
                     (skipn (length a / 2 - (length a / 2) mod 8) a)).
Proof. reflexivity. Qed.

Lemma pairwise_sum_nan (depth : nat) (a : list num) :
  In NaN a -> pairwise_sum depth a = NaN.
Proof.
  revert a; induction depth as [|depth IH]; intros a H;
    [rewrite pairwise_sum_O | rewrite pairwise_sum_S].
  - destruct (Nat.ltb_spec (length a) 8); [apply fold_add_nan; assumption|].
    destruct (length a <=? 128); [apply sum_block_nan | apply fold_add_nan];
      assumption.
  - destruct (Nat.ltb_spec (length a) 8); [apply fold_add_nan; assumption|].
    destruct (length a <=? 128); [apply sum_block_nan; assumption|].
    destruct (in_firstn_skipn (length a / 2 - (length a / 2) mod 8) _ _ H)
      as [H1 | H2].
    + rewrite (IH _ H1). apply add_nan_l.
    + rewrite (IH _ H2). apply add_nan_r.
Qed.

Lemma pairwise_sum_zeros (depth : nat) (a : list num) :
  Forall (fun x => iszero x = true) a -> iszero (pairwise_sum depth a) = true.
Proof.
  revert a; induction depth as [|depth IH]; intros a H;
    [rewrite pairwise_sum_O | rewrite pairwise_sum_S].
  - destruct (Nat.ltb_spec (length a) 8); [apply fold_add_zeros; auto|].
    destruct (length a <=? 128); [apply sum_block_zeros | apply fold_add_zeros];
      auto.
  - destruct (Nat.ltb_spec (length a) 8); [apply fold_add_zeros; auto|].
    destruct (length a <=? 128); [apply sum_block_zeros; assumption|].
    apply add_zeros; apply IH; [apply Forall_firstn | apply Forall_skipn];
      assumption.
Qed.

Lemma sum_nan (a : list (list num)) : In NaN (concat a) -> sum a = NaN.
Proof.
  intro H. unfold sum. rewrite pairwise_sum_nan by assumption. apply add_nan_r.
Qed.

Lemma sum_zeros (a : list (list num)) :
  Forall (fun x => iszero x = true) (concat a) -> is_zero (sum a) = true.
Proof.
  intro H. rewrite is_zero_iszero. unfold sum.
  apply add_zeros; [reflexivity | apply pairwise_sum_zeros; assumption].
Qed.
(** ** NumPy's argmin *)

Lemma argmin_scan_bound (ip : list num) (mp : num) (min_ind i : nat) :
  argmin_scan mp min_ind i ip = min_ind \/
  i <= argmin_scan mp min_ind i ip < i + length ip.
Proof.
  revert mp min_ind i; induction ip as [|x ip IH]; simpl; intros mp min_ind i.
  - left; reflexivity.
  - destruct (negb (ge x mp)).
    + destruct (isnan x).
      * right; lia.
      * destruct (IH x i (S i)) as [-> | H]; right; lia.
    + destruct (IH mp min_ind (S i)) as [-> | H]; [left; reflexivity | right; lia].
Qed.

Lemma first_min_bound (ip : list num) : ip <> [] -> first_min ip < length ip.
Proof.
  destruct ip as [|mp ip]; [congruence|]. intros _. simpl.
  destruct (isnan mp); [lia|].
  destruct (argmin_scan_bound ip mp 0 1) as [-> | H]; lia.
Qed.

Lemma argmin_bound (ip : list num) (w : nat) :
  argmin ip = Ret w -> w < length ip.
Proof.
  destruct ip as [|mp ip]; [discriminate|]. intro H.
  rewrite argmin_first_min in H by discriminate. injection H as <-.
  apply (@first_min_bound (mp :: ip)). discriminate.
Qed.

Lemma argmin_axis0_bound (n : nat) (m : list (list num)) (ws : list nat) :
  argmin_axis0 n m = Ret ws -> Forall (fun w => w < length m) ws.
Proof.
  unfold argmin_axis0. destruct m as [|r m]; [discriminate|]. intro H.
  apply mapM_Forall2 in H. remember (seq 0 n) as js eqn:E. clear E.
  induction H as [|j w js ws Hw _ IH]; constructor; [|assumption].
  apply argmin_bound in Hw. rewrite length_map in Hw. assumption.
Qed.

(** The first NaN wins. *)
Lemma argmin_scan_nan (l1 l2 : list num) (x mp : num) (min_ind i : nat) :
  Forall (fun r => isnan r = false) l1 -> isnan x = true ->
  argmin_scan mp min_ind i (l1 ++ x :: l2) = i + length l1.
Proof.
  intros Hl1 Hx. revert mp min_ind i.
  induction Hl1 as [|y l1 Hy _ IH]; simpl; intros mp min_ind i.
  - replace (ge x mp) with false.
    + simpl. rewrite Hx. lia.
    + apply isnan_eq in Hx. rewrite Hx. symmetry. apply ge_nan_l.
  - rewrite Hy. destruct (negb (ge y mp)); rewrite IH; lia.
Qed.

Lemma first_min_nan (l1 l2 : list num) (x : num) :
  Forall (fun r => isnan r = false) l1 -> isnan x = true ->
  first_min (l1 ++ x :: l2) = length l1.
Proof.
  intros Hl1 Hx. destruct l1 as [|y l1]; simpl.
  - rewrite Hx. reflexivity.
  - inversion Hl1 as [|? ? Hy Hl1']; subst. rewrite Hy.
    rewrite argmin_scan_nan by assumption. lia.
Qed.


(** Without NaN, the first least entry wins. *)
Lemma argmin_scan_least (ip pre : list num) (mp : num) (min_ind : nat) :
  Forall (fun r => isnan r = false) (pre ++ ip) ->
  min_ind < length pre ->
  nth min_ind pre NaN = mp ->
  (forall d, d < length pre -> fle mp (nth d pre NaN)) ->
  (forall d, d < min_ind -> flt mp (nth d pre NaN)) ->
  let l := pre ++ ip in
  let w := argmin_scan mp min_ind (length pre) ip in
  w < length l /\
  (forall d, d < length l -> fle (nth w l NaN) (nth d l NaN)) /\
  (forall d, d < w -> flt (nth w l NaN) (nth d l NaN)).
Proof.
  revert pre mp min_ind; induction ip as [|x ip IH]; intros pre mp min_ind Hfin Hmi Hmp Hle Hlt.
  - simpl. rewrite app_nil_r. rewrite Hmp. repeat split; assumption.
  - assert (Hmpfin : isnan mp = false).
    { rewrite Forall_forall in Hfin. apply Hfin. apply in_or_app. left.
      rewrite <- Hmp. apply nth_In. assumption. }
    assert (Hxfin : isnan x = false).
    { rewrite Forall_forall in Hfin. apply Hfin. apply in_or_app. right. left. reflexivity. }
    assert (Hlen : length (pre ++ [x]) = S (length pre))
      by (rewrite length_app; simpl; lia).
    assert (Happ : (pre ++ [x]) ++ ip = pre ++ x :: ip)
      by (rewrite <- app_assoc; reflexivity).
    assert (Hnth : forall d, d < length pre ->
                             nth d (pre ++ [x]) NaN = nth d pre NaN)
      by (intros d Hd; apply app_nth1; assumption).
    assert (Hlast : nth (length pre) (pre ++ [x]) NaN = x)
      by (rewrite app_nth2 by lia; rewrite Nat.sub_diag; reflexivity).
    cbn zeta. simpl argmin_scan. rewrite Hxfin.
    destruct (ge x mp) eqn:E; simpl negb; cbv iota.
    + apply ge_fle in E.
      specialize (IH (pre ++ [x]) mp min_ind). rewrite Hlen, Happ in IH.
      apply IH.
      * assumption.
      * lia.
      * rewrite Hnth by assumption. assumption.
      * intros d Hd. destruct (Nat.eq_dec d (length pre)) as [->|Hne].
        -- rewrite Hlast. assumption.
        -- rewrite Hnth by lia. apply Hle. lia.
      * intros d Hd. rewrite Hnth by lia. apply Hlt. assumption.
    + assert (Hx : flt x mp) by (apply not_ge_flt; assumption).
      specialize (IH (pre ++ [x]) x (length pre)). rewrite Hlen, Happ in IH.
      apply IH.
      * assumption.
      * lia.
      * assumption.
      * intros d Hd. destruct (Nat.eq_dec d (length pre)) as [->|Hne].
        -- rewrite Hlast. apply fle_refl. assumption.
        -- rewrite Hnth by lia. apply flt_fle.
           eapply flt_fle_trans; [exact Hx | apply Hle; lia].
      * intros d Hd. rewrite Hnth by lia.
        eapply flt_fle_trans; [exact Hx | apply Hle; lia].
Qed.

Lemma first_min_least (l : list num) :
  l <> [] -> Forall (fun r => isnan r = false) l ->
  first_min l < length l /\
  (forall d, d < length l -> fle (nth (first_min l) l NaN) (nth d l NaN)) /\
  (forall d, d < first_min l -> flt (nth (first_min l) l NaN) (nth d l NaN)).
Proof.
  destruct l as [|mp ip]; [congruence|]. intros _ Hfin.
  assert (Hmp : isnan mp = false) by (inversion Hfin; assumption).
  unfold first_min. rewrite Hmp.
  apply (@argmin_scan_least ip [mp] mp 0); simpl.
  - assumption.
  - lia.
  - reflexivity.
  - intros d Hd. assert (d = 0) as -> by lia. apply fle_refl. assumption.
  - intros d Hd. lia.
Qed.
(** ** C8: the assignment is total and exclusive *)

Lemma winners_bound (sample : nat) (data : ndarray) (k : Z) (cs : list (list num))
      (st : locals) (b : bool) :
  iteration sample data k cs = Ret (st, b) ->
  Forall (fun w => w < Z.to_nat k) (winners st).
Proof.
  intro H. pose proof (iteration_facts _ _ _ _ H) as (_ & _ & _ & Hlen & _).
  apply iteration_ret in H. destruct H as (ds & ws & cl & _ & Hws & _ & -> & _).
  simpl in *. rewrite <- Hlen. eapply argmin_axis0_bound; eassumption.
Qed.

Lemma mask_nth (i p : nat) (ws : list nat) :
  p < length ws ->
  nth p (map (Nat.eqb i) ws) false = (i =? nth p ws 0).
Proof.
  intro Hp.
  rewrite (nth_indep _ false (i =? 0)) by (rewrite length_map; assumption).
  apply (map_nth (Nat.eqb i)).
Qed.

Lemma list_sum_zero (A : Type) (l : list A) :
  list_sum (map (fun _ => 0) l) = 0.
Proof. induction l as [|a l IH]; simpl; [reflexivity | assumption]. Qed.

Lemma list_sum_plus (A : Type) (f g : A -> nat) (l : list A) :
  list_sum (map (fun a => f a + g a) l) = list_sum (map f l) + list_sum (map g l).
Proof. induction l as [|a l IH]; simpl; [reflexivity | rewrite IH; lia]. Qed.

Lemma list_sum_indicator (w a n : nat) :
  a <= w < a + n ->
  list_sum (map (fun i => if i =? w then 1 else 0) (seq a n)) = 1.
Proof.
  revert a; induction n as [|n IH]; intros a H; simpl; [lia|].
  destruct (Nat.eqb_spec a w) as [->|Hne].
  - rewrite (map_ext_in _ (fun _ => 0)).
    + rewrite list_sum_zero. reflexivity.
    + intros i Hi. apply in_seq in Hi.
      destruct (Nat.eqb_spec i w); [lia | reflexivity].
  - simpl. apply IH. lia.
Qed.

(** The clusters cut by the masks [winners == i] share out the points. *)
Lemma count_true_partition (ws : list nat) (n : nat) :
  Forall (fun w => w < n) ws ->
  list_sum (map (fun i => count_true (map (Nat.eqb i) ws)) (seq 0 n)) = length ws.
Proof.
  induction 1 as [|w ws Hw _ IH]; simpl.
  - apply list_sum_zero.
  - rewrite (map_ext _ (fun i => (if i =? w then 1 else 0)
                                 + count_true (map (Nat.eqb i) ws))).
    + rewrite list_sum_plus, IH, list_sum_indicator by lia. reflexivity.
    + intro i. unfold count_true. simpl. destruct (i =? w); reflexivity.
Qed.

(** C8.  Every assignment the loop body produces covers the points exactly:
    [winners] has one entry for each of the [N] columns of the data, every
    entry is a cluster index in [0, k), each point is selected by the mask
    of exactly one of the [k] clusters, which are cut out of the data by
    these masks, and the sizes of the clusters add up to [N].  On a dataset
    with its two rows and [sample] columns the body does produce an
    assignment. *)
Theorem C8_assignment_total_exclusive (sample : nat) (data : ndarray) (k : Z)
        (cs : list (list num)) :
  (forall st b,
      iteration sample data k cs = Ret (st, b) ->
      length (winners st) = ncols data /\
      Forall (fun w => (0 <= Z.of_nat w < k)%Z) (winners st) /\
      (forall p, p < ncols data ->
                 exists! i, In i (range k) /\
                            nth p (map (Nat.eqb i) (winners st)) false = true) /\
      Forall2 (fun i c => compress (map (Nat.eqb i) (winners st)) data = Ret c)
              (range k) (clusters st) /\
      list_sum (map ncols (clusters st)) = ncols data) /\
  (wf data -> 2 <= length (rows data) -> ncols data = sample -> (1 <= k)%Z ->
   centroid_shape data k cs ->
   exists st b, iteration sample data k cs = Ret (st, b)).
Proof.
  split.
  - intros st b H.
    pose proof (winners_bound _ _ _ _ H) as Hb.
    pose proof (iteration_facts _ _ _ _ H)
      as (Hk & _ & Hcols & _ & _ & Hlen & Hcl & _).
    split; [congruence|]. split; [|split; [|split; [assumption|]]].
    + eapply Forall_impl; [|exact Hb]. simpl. intros w Hw. lia.
    + intros p Hp. exists (nth p (winners st) 0).
      assert (Hp' : p < length (winners st)) by congruence.
      split.
      * split.
        -- apply range_In. rewrite Forall_forall in Hb.
           specialize (Hb (nth p (winners st) 0) (nth_In _ _ Hp')). lia.
        -- rewrite mask_nth by assumption. apply Nat.eqb_refl.
      * intros i [_ Hi]. rewrite mask_nth in Hi by assumption.
        apply Nat.eqb_eq in Hi. congruence.
    + assert (Hsizes : map ncols (clusters st)
                       = map (fun i => count_true (map (Nat.eqb i) (winners st)))
                             (range k)).
      { clear - Hcl. induction Hcl as [|i c l1 l2 Hc _ IH]; simpl; [reflexivity|].
        apply compress_ret in Hc. destruct Hc as (_ & -> & _). rewrite IH.
        reflexivity. }
      rewrite Hsizes. unfold range. rewrite (count_true_partition Hb). congruence.
  - intros Hwf Hrows Hcols Hk Hshape.
    eexists. eexists. apply iteration_eq; assumption.
Qed.

Lemma C8_assignment_total_exclusive_witness :
  exists st b,
    iteration 2 two_points 1 [ints [0; 2]%Z] = Ret (st, b) /\
    length (winners st) = ncols two_points.
Proof.
  destruct (@C8_assignment_total_exclusive 2 two_points 1%Z [ints [0; 2]%Z])
    as [Hinv Htotal].
  destruct Htotal as (st & b & H).
  - repeat constructor.
  - simpl; lia.
  - reflexivity.
  - lia.
  - split; [reflexivity | repeat constructor].
  - exists st, b. split; [exact H|]. apply (Hinv st b H).
Defined.

(** ** C3: the assignment step *)

Lemma assign_nth (data : ndarray) (cs : list (list num)) (p : nat) :
  p < ncols data ->
  nth p (assign data cs) 0
  = nearest (nth p (nth 0 (rows data) []) zero) (nth p (nth 1 (rows data) []) zero) cs.
Proof.
  intro Hp. unfold assign.
  set (g := fun p => nearest (nth p (nth 0 (rows data) []) zero)
                             (nth p (nth 1 (rows data) []) zero) cs).
  rewrite (nth_indep _ 0 (g 0)) by (rewrite length_map, length_seq; assumption).
  rewrite (map_nth g). rewrite seq_nth by assumption. reflexivity.
Qed.

Lemma dists_nth (x y : num) (cs : list (list num)) (d : nat) :
  d < length cs ->
  nth d (map (fun c => dist2 x y c) cs) NaN = dist2 x y (nth d cs []).
Proof.
  intro Hd.
  rewrite (nth_indep _ NaN (dist2 x y [])) by (rewrite length_map; assumption).
  apply (map_nth (fun c => dist2 x y c)).
Qed.

(** Among centroids at distances that are numbers, [nearest] is the first
    one at least computed distance. *)
Lemma nearest_least (x y : num) (cs : list (list num)) :
  cs <> [] -> Forall (fun c => isnan (dist2 x y c) = false) cs ->
  nearest x y cs < length cs /\
  (forall d, d < length cs ->
             fle (dist2 x y (nth (nearest x y cs) cs [])) (dist2 x y (nth d cs []))) /\
  (forall d, d < nearest x y cs ->
             flt (dist2 x y (nth (nearest x y cs) cs [])) (dist2 x y (nth d cs []))).
Proof.
  intros Hne Hfin. unfold nearest.
  set (l := map (fun c => dist2 x y c) cs).
  assert (Hl : l <> []).
  { intro E. apply map_eq_nil in E. contradiction. }
  assert (Hlfin : Forall (fun r => isnan r = false) l).
  { apply Forall_map. assumption. }
  assert (Hlen : length l = length cs) by apply length_map.
  destruct (first_min_least Hl Hlfin) as (Hw & Hle & Hlt).
  rewrite Hlen in Hw, Hle.
  subst l. split; [assumption|]. split.
  - intros d Hd. specialize (Hle d Hd).
    rewrite !dists_nth in Hle by assumption. assumption.
  - intros d Hd. specialize (Hlt d Hd).
    rewrite !dists_nth in Hlt by lia. assumption.
Qed.

(** The cells of a well-formed array are finite. *)
Lemma wf_cell (data : ndarray) (i p : nat) :
  wf data -> isfinite (nth p (nth i (rows data) []) zero) = true.
Proof.
  intro Hwf. apply wf_numbers in Hwf.
  destruct (Nat.lt_ge_cases i (length (rows data))) as [Hi|Hi].
  - rewrite Forall_forall in Hwf. specialize (Hwf _ (nth_In (rows data) [] Hi)).
    destruct (Nat.lt_ge_cases p (length (nth i (rows data) []))) as [Hp|Hp].
    + rewrite Forall_forall in Hwf. specialize (Hwf _ (nth_In _ zero Hp)).
      unfold number in Hwf. apply andb_true_iff in Hwf. apply Hwf.
    + rewrite nth_overflow by assumption. reflexivity.
  - rewrite (nth_overflow (rows data)) by assumption. destruct p; reflexivity.
Qed.

Lemma dist2_data (data : ndarray) (p : nat) (c : list num) :
  wf data -> nan01 c = false ->
  nonneg (dist2 (nth p (nth 0 (rows data) []) zero)
                (nth p (nth 1 (rows data) []) zero) c) = true.
Proof.
  intros Hwf Hc. apply dist2_nonneg; [apply wf_cell | apply wf_cell |]; assumption.
Qed.

(** C3, as amended.  On a dataset with at least two rows and [sample]
    columns, and centroids whose two leading coordinates are not NaN, the
    assignment step gives every point the centroid at least distance as
    the routine computes it: in float64, on the first two coordinates (the
    only ones [all_dist] reads).  The lowest index wins among the centroids
    whose computed distances are equal. *)
Theorem C3_nearest_on_two_coordinates (sample : nat) (data : ndarray) (k : Z)
        (cs : list (list num)) :
  wf data -> 2 <= length (rows data) -> ncols data = sample -> (1 <= k)%Z ->
  centroid_shape data k cs ->
  Forall (fun c => nan01 c = false) cs ->
  exists st b,
    iteration sample data k cs = Ret (st, b) /\
    forall p, p < ncols data ->
      let x := nth p (nth 0 (rows data) []) zero in
      let y := nth p (nth 1 (rows data) []) zero in
      let w := nth p (winners st) 0 in
      w < Z.to_nat k /\
      (forall d, d < Z.to_nat k ->
                 nth p (nth d (distances st) []) NaN = dist2 x y (nth d cs [])) /\
      (forall d, d < Z.to_nat k ->
                 fle (dist2 x y (nth w cs [])) (dist2 x y (nth d cs []))) /\
      (forall d, d < w ->
                 flt (dist2 x y (nth w cs [])) (dist2 x y (nth d cs []))).
Proof.
  intros Hwf Hrows Hcols Hk Hshape Hfin.
  eexists. eexists. split; [apply iteration_eq; assumption|].
  intros p Hp. cbn [winners distances]. rewrite assign_nth by assumption.
  destruct Hshape as [Hlen Hsh]. rewrite <- Hlen.
  assert (Hne : cs <> []) by (intro E; rewrite E in Hlen; simpl in Hlen; lia).
  assert (Hd : Forall (fun c => isnan (dist2 (nth p (nth 0 (rows data) []) zero)
                                             (nth p (nth 1 (rows data) []) zero) c)
                                = false) cs).
  { eapply Forall_impl; [|exact Hfin]. simpl. intros c Hc.
    apply nonneg_not_nan. apply dist2_data; assumption. }
  destruct (nearest_least _ _ Hne Hd) as (H1 & H2 & H3).
  split; [assumption|]. split; [|split; assumption].
  intros d Hdk.
  pose proof (@dist_matrix_column sample data cs Hwf Hrows Hcols p) as Hcol.
  assert (Hp' : p < sample) by lia. specialize (Hcol Hp').
  assert (E : nth p (nth d (dist_matrix data cs) []) NaN
              = nth d (map (fun r => nth p r NaN) (dist_matrix data cs)) NaN).
  { rewrite (nth_indep (map _ _) NaN (nth p [] NaN)).
    - symmetry. apply (map_nth (fun r => nth p r NaN)).
    - rewrite length_map. unfold dist_matrix. rewrite length_map. assumption. }
  rewrite E, Hcol. apply dists_nth. assumption.
Qed.

Lemma C3_nearest_on_two_coordinates_witness :
  exists st b,
    iteration 3 three_points_3d 2 [ints [0; 0; 0]; ints [1; 0; 100]]%Z
    = Ret (st, b) /\
    forall p, p < 3 ->
      let x := nth p (ints [0; 3; 1]%Z) zero in
      let y := nth p (ints [0; 0; 0]%Z) zero in
      let w := nth p (winners st) 0 in
      w < 2 /\
      (forall d, d < 2 ->
                 nth p (nth d (distances st) []) NaN
                 = dist2 x y (nth d [ints [0; 0; 0]; ints [1; 0; 100]]%Z [])) /\
      (forall d, d < 2 ->
                 fle (dist2 x y (nth w [ints [0; 0; 0]; ints [1; 0; 100]]%Z []))
                     (dist2 x y (nth d [ints [0; 0; 0]; ints [1; 0; 100]]%Z []))) /\
      (forall d, d < w ->
                 flt (dist2 x y (nth w [ints [0; 0; 0]; ints [1; 0; 100]]%Z []))
                     (dist2 x y (nth d [ints [0; 0; 0]; ints [1; 0; 100]]%Z []))).
Proof.
  apply (@C3_nearest_on_two_coordinates 3 three_points_3d 2%Z
           [ints [0; 0; 0]; ints [1; 0; 100]]%Z).
  - repeat constructor.
  - simpl; lia.
  - reflexivity.
  - lia.
  - split; [reflexivity | repeat constructor].
  - repeat constructor.
Defined.

(** C3 as stated fails: with a third coordinate, the point [(3, 0, 0)] is
    given the centroid [(1, 0, 100)], at squared distance 10004 over all
    coordinates, although the centroid [(0, 0, 0)] is at squared distance 9:
    the third coordinate is not read.  Every number of this run is an
    integer that float64 holds exactly. *)
Lemma C3_third_coordinate_ignored :
  ~ (forall (sample : nat) (data : ndarray) (k : Z) (cs : list (list num))
            (st : locals) (b : bool),
        wf data -> 1 <= length (rows data) ->
        iteration sample data k cs = Ret (st, b) ->
        forall p d, p < ncols data -> d < Z.to_nat k ->
          (sqdist_all (point data p) (nth (nth p (winners st) 0%nat) cs [])
           <= sqdist_all (point data p) (nth d cs []))%Q).
Proof.
  intro H.
  assert (Hit : exists st b,
             iteration 3 three_points_3d 2 [ints [0; 0; 0]; ints [1; 0; 100]]%Z
             = Ret (st, b) /\ winners st = [0; 1; 1]).
  { eexists. eexists. split; vm_compute; reflexivity. }
  destruct Hit as (st & b & Hit & Hw).
  assert (Hwf : wf three_points_3d) by repeat constructor.
  pose proof (H _ _ _ _ _ _ Hwf ltac:(simpl; lia) Hit 1 0
                ltac:(simpl; lia) ltac:(simpl; lia)) as Hc.
  rewrite Hw in Hc. vm_compute in Hc. apply Hc. reflexivity.
Qed.

(** The distances compared are the computed ones.  From the origin the
    centroid [(10 ^ 8, 0)] is nearer than [(10 ^ 8, 1)], but [10 ^ 16 + 1]
    is rounded to [10 ^ 16]: both computed distances are [10 ^ 8] and the
    origin goes to the centroid of lower index. *)
Lemma rounded_distances_tie :
  exists st b,
    iteration 3 far_points 2 [ints [100000000; 1]; ints [100000000; 0]]%Z
    = Ret (st, b) /\
    winners st = [0; 1; 0] /\
    nth 2 (nth 0 (distances st) []) NaN = of_Z 100000000 /\
    nth 2 (nth 1 (distances st) []) NaN = of_Z 100000000 /\
    (sqdist2 zero zero (ints [100000000; 0]%Z)
     < sqdist2 zero zero (ints [100000000; 1]%Z))%Q.
Proof.
  eexists. eexists. split; [vm_compute; reflexivity|].
  repeat split; vm_compute; reflexivity.
Qed.

(** ** A cluster without points

    The mean of an empty cluster is [0.0 / 0], NaN.  A NaN centroid is at
    NaN distance of every point and [argmin] gives all the points to the
    first such centroid; the other clusters are then empty in turn, and the
    sum that closes the loop is NaN at every pass. *)

Lemma first_nan_split (cs : list (list num)) :
  Exists (fun c => nan01 c = true) cs ->
  exists cs1 c cs2,
    cs = cs1 ++ c :: cs2 /\ Forall (fun c => nan01 c = false) cs1 /\ nan01 c = true.
Proof.
  induction cs as [|c cs IH]; intro H; [inversion H|].
  destruct (nan01 c) eqn:E.
  - exists [], c, cs. repeat split; [constructor | assumption].
  - inversion H as [? ? Hc | ? ? Hcs]; subst; [congruence|].
    destruct (IH Hcs) as (cs1 & c' & cs2 & -> & H1 & H2).
    exists (c :: cs1), c', cs2. repeat split; [constructor|]; assumption.
Qed.

Lemma nearest_nan (x y : num) (cs1 cs2 : list (list num)) (c : list num) :
  isfinite x = true -> isfinite y = true ->
  Forall (fun c => nan01 c = false) cs1 -> nan01 c = true ->
  nearest x y (cs1 ++ c :: cs2) = length cs1.
Proof.
  intros Hx Hy H1 Hc. unfold nearest. rewrite map_app. simpl.
  rewrite first_min_nan.
  - apply length_map.
  - apply Forall_map. eapply Forall_impl; [|exact H1]. simpl.
    intros c' Hc'. apply nonneg_not_nan. apply dist2_nonneg; assumption.
  - rewrite dist2_isnan by assumption. reflexivity.
Qed.

Lemma assign_nan (data : ndarray) (cs : list (list num)) :
  wf data ->
  Exists (fun c => nan01 c = true) cs ->
  exists j, j < length cs /\ Forall (fun w => w = j) (assign data cs).
Proof.
  intros Hwf H. destruct (first_nan_split H) as (cs1 & c & cs2 & -> & H1 & Hc).
  exists (length cs1). split.
  - rewrite length_app. simpl. lia.
  - unfold assign. apply Forall_map. apply Forall_forall. intros p _.
    apply nearest_nan; try assumption; apply wf_cell; assumption.
Qed.

Lemma count_true_none (i j : nat) (ws : list nat) :
  Forall (fun w => w = j) ws -> i <> j -> count_true (map (Nat.eqb i) ws) = 0.
Proof.
  intros H Hij. unfold count_true.
  induction H as [|w ws -> _ IH]; simpl; [reflexivity|].
  destruct (Nat.eqb_spec i j); [contradiction | assumption].
Qed.

Lemma mean_empty : mean 0 [] = NaN.
Proof. reflexivity. Qed.

Lemma select_count_zero (A : Type) (mask : list bool) (r : list A) :
  count_true mask = 0 -> select mask r = [].
Proof.
  revert r; unfold count_true. induction mask as [|b mask IH]; intros r H; simpl in *.
  - reflexivity.
  - destruct r as [|x r]; [reflexivity|].
    destruct b; simpl in H; [discriminate | apply IH; assumption].
Qed.

Lemma average_empty (data : ndarray) (ws : list nat) (i : nat) :
  count_true (map (Nat.eqb i) ws) = 0 ->
  average_axis1 (members data ws i) = map (fun _ => NaN) (rows data).
Proof.
  intro H. unfold average_axis1, members. cbn [ncols rows]. rewrite H, map_map.
  apply map_ext. intro r. rewrite (@select_count_zero _ _ r H). apply mean_empty.
Qed.

Lemma all_nan_nan01 (A : Type) (l : list A) : nan01 (map (fun _ => NaN) l) = true.
Proof. destruct l as [|a [|b l]]; reflexivity. Qed.

Lemma recompute_nan (data : ndarray) (k : Z) (cs : list (list num)) :
  wf data ->
  (2 <= k)%Z \/ ((1 <= k)%Z /\ ncols data = 0) ->
  Exists (fun c => nan01 c = true) cs ->
  Exists (fun c => nan01 c = true) (recompute data k cs).
Proof.
  intros Hwf Hk H. destruct (assign_nan Hwf H) as (j & _ & Hj).
  unfold recompute, groups. rewrite map_map. apply Exists_exists.
  destruct Hk as [Hk | [Hk Hcols]].
  - set (i := if j =? 0 then 1 else 0).
    exists (average_axis1 (members data (assign data cs) i)). split.
    + apply (in_map (fun i => average_axis1 (members data (assign data cs) i))).
      apply range_In. subst i. destruct (j =? 0); lia.
    + rewrite average_empty; [apply all_nan_nan01|].
      apply (count_true_none Hj).
      subst i. destruct (Nat.eqb_spec j 0); lia.
  - exists (average_axis1 (members data (assign data cs) 0)). split.
    + apply (in_map (fun i => average_axis1 (members data (assign data cs) i))).
      apply range_In. lia.
    + rewrite average_empty; [apply all_nan_nan01|].
      unfold assign. rewrite Hcols. reflexivity.
Qed.

Lemma sub_row_nan (c r : list num) :
  2 <= length c -> 2 <= length r ->
  nan01 c = true \/ nan01 r = true ->
  In NaN (map (fun xy => sub (fst xy) (snd xy)) (combine c r)).
Proof.
  intros Hc Hr H.
  destruct c as [|c0 [|c1 c]]; simpl in Hc; try lia.
  destruct r as [|r0 [|r1 r]]; simpl in Hr; try lia.
  unfold nan01 in H. simpl in *.
  destruct H as [H | H]; apply orb_true_iff in H; destruct H as [H | H];
    apply isnan_eq in H; subst.
  - left. reflexivity.
  - right. left. reflexivity.
  - left. apply sub_nan_r.
  - right. left. apply sub_nan_r.
Qed.

Lemma sub2_nan (a b : list (list num)) :
  length a = length b ->
  Forall (fun c => 2 <= length c) a -> Forall (fun c => 2 <= length c) b ->
  Exists (fun c => nan01 c = true) a \/ Exists (fun c => nan01 c = true) b ->
  In NaN (concat (sub2 a b)).
Proof.
  revert b; induction a as [|c a IH]; intros [|r b] Hlen Ha Hb H; simpl in Hlen; try lia.
  - destruct H as [H | H]; inversion H.
  - inversion Ha as [|? ? Hc Ha']; subst. inversion Hb as [|? ? Hr Hb']; subst.
    unfold sub2. simpl. apply in_or_app.
    assert (Hcase : (nan01 c = true \/ nan01 r = true) \/
                    (Exists (fun c => nan01 c = true) a \/
                     Exists (fun c => nan01 c = true) b)).
    { destruct H as [H | H]; inversion H; subst; auto. }
    destruct Hcase as [Hrow | Hrest].
    + left. apply sub_row_nan; assumption.
    + right. apply IH; try assumption. lia.
Qed.

Lemma unchanged_nan (a b : list (list num)) :
  length a = length b ->
  Forall (fun c => 2 <= length c) a -> Forall (fun c => 2 <= length c) b ->
  Exists (fun c => nan01 c = true) a \/ Exists (fun c => nan01 c = true) b ->
  unchanged a b = false.
Proof.
  intros Hlen Ha Hb H. unfold unchanged.
  rewrite sum_nan; [reflexivity|]. apply sub2_nan; assumption.
Qed.

Section Divergence.

Variable sample : nat.
Variable data : ndarray.
Variable k : Z.

Hypothesis data_wf : wf data.
Hypothesis data_rows : 2 <= length (rows data).
Hypothesis data_cols : ncols data = sample.
Hypothesis k_pos : (1 <= k)%Z.

Lemma shape_rows (cs : list (list num)) :
  centroid_shape data k cs -> Forall (fun c => 2 <= length c) cs.
Proof.
  intros [_ H]. eapply Forall_impl; [|exact H]. simpl. intros c Hc. lia.
Qed.

Lemma unchanged_recompute_nan (cs : list (list num)) :
  centroid_shape data k cs ->
  Exists (fun c => nan01 c = true) cs \/
  Exists (fun c => nan01 c = true) (recompute data k cs) ->
  unchanged cs (recompute data k cs) = false.
Proof.
  intros Hshape H.
  pose proof (recompute_shape data k cs) as Hnew.
  apply unchanged_nan.
  - destruct Hshape as [-> _]. destruct Hnew as [-> _]. reflexivity.
  - apply shape_rows; assumption.
  - apply shape_rows; assumption.
  - assumption.
Qed.

(** Once a centroid is NaN the loop never leaves. *)
Lemma nan_forever (fuel : nat) (cs : list (list num)) :
  (2 <= k)%Z \/ sample = 0 ->
  centroid_shape data k cs ->
  Exists (fun c => nan01 c = true) cs ->
  while_not_done sample fuel data k cs = Timeout.
Proof.
  intro Hk. revert cs; induction fuel as [|fuel IH]; intros cs Hshape Hnan;
    [reflexivity|].
  simpl. rewrite iteration_eq by assumption. simpl.
  rewrite unchanged_recompute_nan by (auto).
  apply IH.
  - apply recompute_shape.
  - apply recompute_nan; [assumption| |assumption].
    destruct Hk as [Hk | Hk]; [left; assumption | right; split; [assumption | congruence]].
Qed.

End Divergence.

Lemma count_true_all (j : nat) (ws : list nat) :
  Forall (fun w => w = j) ws -> count_true (map (Nat.eqb j) ws) = length ws.
Proof.
  intro H. unfold count_true.
  induction H as [|w ws -> _ IH]; simpl; [reflexivity|].
  rewrite Nat.eqb_refl. simpl. rewrite IH. reflexivity.
Qed.

Lemma nth_map_range (A : Type) (F : nat -> A) (k : Z) (d : nat) (dflt : A) :
  d < Z.to_nat k -> nth d (map F (range k)) dflt = F d.
Proof.
  intro Hd.
  rewrite (nth_indep _ dflt (F 0)) by (rewrite length_map, range_length; assumption).
  rewrite (map_nth F). unfold range. rewrite seq_nth by assumption. reflexivity.
Qed.

Lemma select_none (A : Type) (d : nat) (ws : list nat) (r : list A) :
  Forall (fun w => w <> d) ws ->
  select (map (Nat.eqb d) ws) r = [] /\ count_true (map (Nat.eqb d) ws) = 0.
Proof.
  intro H. revert r. unfold count_true.
  induction H as [|w ws Hw _ IH]; intro r; simpl.
  - split; reflexivity.
  - destruct (Nat.eqb_spec d w) as [E|_]; [symmetry in E; contradiction|].
    destruct r as [|x r]; [split; [reflexivity | apply (IH [])]|].
    apply IH.
Qed.

(** A pass of the loop body that leaves a cluster without points yields a
    NaN centroid and does not close the loop, and no later pass does. *)
Lemma empty_cluster_diverges (sample : nat) (data : ndarray) (k : Z)
      (cs : list (list num)) (st : locals) (b : bool) :
  wf data -> centroid_shape data k cs ->
  iteration sample data k cs = Ret (st, b) ->
  Exists (fun c => ncols c = 0) (clusters st) ->
  Exists (fun c => nan01 c = true) (centroids st) /\
  b = false /\
  forall fuel, while_not_done sample fuel data k cs = Timeout.
Proof.
  intros Hwf Hshape H Hempty.
  pose proof (winners_bound _ _ _ _ H) as Hb.
  pose proof (iteration_facts _ _ _ _ H) as (Hk & Hrows & Hcols & _ & _ & Hlen & _).
  pose proof H as H'. rewrite iteration_eq in H' by assumption.
  injection H' as <- <-. simpl in *.
  assert (Hnan : Exists (fun c => nan01 c = true) (recompute data k cs)).
  { unfold recompute, groups in *. rewrite map_map.
    apply Exists_exists. apply Exists_exists in Hempty.
    destruct Hempty as (c & Hin & Hc). apply in_map_iff in Hin.
    destruct Hin as (i & <- & Hi).
    exists (average_axis1 (members data (assign data cs) i)). split.
    - apply (in_map (fun i => average_axis1 (members data (assign data cs) i))).
      assumption.
    - rewrite average_empty by exact Hc. apply all_nan_nan01. }
  assert (Hfalse : unchanged cs (recompute data k cs) = false)
    by (apply (@unchanged_recompute_nan sample data k); auto).
  assert (Hk2 : (2 <= k)%Z \/ sample = 0).
  { destruct (Z_le_gt_dec 2 k) as [|Hk1]; [left; assumption | right].
    assert (Hone : Z.to_nat k = 1) by lia.
    unfold groups, range in Hempty. rewrite Hone in Hempty, Hb. simpl in Hempty.
    inversion Hempty as [? ? Hc | ? ? Hc]; subst; [|inversion Hc].
    change (count_true (map (Nat.eqb 0) (assign data cs)) = 0) in Hc.
    rewrite count_true_all in Hc; [congruence|].
    eapply Forall_impl; [|exact Hb]. simpl. intros w Hw. lia. }
  split; [assumption|]. split; [assumption|].
  intros [|fuel]; [reflexivity|]. simpl.
  rewrite iteration_eq by assumption. simpl. rewrite Hfalse.
  apply nan_forever; try assumption. apply recompute_shape.
Qed.
(** ** The seeding *)

Lemma seeding_draw_bound (sample r : nat) : 1 <= sample -> r mod sample < sample.
Proof. intro H. apply Nat.mod_upper_bound. lia. Qed.

Lemma seeding_ret (sample : nat) (data : ndarray) (k : Z) (rnd : nat -> nat) :
  ncols data = sample -> 1 <= sample ->
  initial_centroids sample data k rnd = Ret (seeds data k rnd).
Proof.
  intros Hcols Hpos. unfold initial_centroids, seeds. apply mapM_map. intros i _.
  unfold randint. destruct (Nat.eqb_spec sample 0); [lia|]. simpl.
  unfold column. rewrite Hcols.
  replace (rnd i mod sample <? sample) with true
    by (symmetry; apply Nat.ltb_lt; apply seeding_draw_bound; assumption).
  reflexivity.
Qed.

Lemma seeding_shape (data : ndarray) (k : Z) (rnd : nat -> nat) :
  centroid_shape data k (seeds data k rnd).
Proof.
  unfold centroid_shape, seeds. split.
  - rewrite length_map. apply range_length.
  - apply Forall_map. apply Forall_forall. intros i _.
    unfold point. rewrite length_map. reflexivity.
Qed.

Lemma seeding_nth (data : ndarray) (k : Z) (rnd : nat -> nat) (d : nat) :
  d < Z.to_nat k ->
  nth d (seeds data k rnd) [] = point data (rnd d mod ncols data).
Proof.
  intro Hd. unfold seeds.
  apply (nth_map_range (fun i => point data (rnd i mod ncols data))).
  assumption.
Qed.

Lemma point_finite (data : ndarray) (q : nat) :
  wf data -> 2 <= length (rows data) -> nan01 (point data q) = false.
Proof.
  intros Hwf Hrows.
  pose proof (wf_cell 0 q Hwf) as H0. pose proof (wf_cell 1 q Hwf) as H1.
  unfold nan01, point.
  destruct (rows data) as [|xs [|ys rest]]; simpl in Hrows; try lia.
  simpl in *. apply orb_false_iff. split.
  - destruct (nth q xs zero); try discriminate; reflexivity.
  - destruct (nth q ys zero); try discriminate; reflexivity.
Qed.

Lemma seeding_finite (data : ndarray) (k : Z) (rnd : nat -> nat) :
  wf data -> 2 <= length (rows data) ->
  Forall (fun c => nan01 c = false) (seeds data k rnd).
Proof.
  intros Hwf Hrows. unfold seeds. apply Forall_map. apply Forall_forall. intros i _.
  apply point_finite; assumption.
Qed.

(** A centroid that repeats an earlier one is nobody's nearest. *)
Lemma nearest_skips_repeat (x y : num) (cs : list (list num)) (i j : nat) :
  isfinite x = true -> isfinite y = true ->
  Forall (fun c => nan01 c = false) cs ->
  i < j -> j < length cs -> nth i cs [] = nth j cs [] ->
  nearest x y cs <> j.
Proof.
  intros Hx Hy Hfin Hij Hj Heq Hw.
  assert (Hne : cs <> []) by (intro E; rewrite E in Hj; simpl in Hj; lia).
  assert (Hd : Forall (fun c => isnan (dist2 x y c) = false) cs).
  { eapply Forall_impl; [|exact Hfin]. simpl. intros c Hc.
    apply nonneg_not_nan. apply dist2_nonneg; assumption. }
  destruct (nearest_least x y Hne Hd) as (_ & _ & Hlt).
  specialize (Hlt i). rewrite Hw in Hlt. specialize (Hlt Hij).
  rewrite Heq in Hlt. exact (flt_irrefl Hlt).
Qed.

(** Two draws on the same column: the later of the two clusters stays
    empty at the first assignment, and the loop is never left. *)
Lemma repeated_draw_diverges (sample : nat) (data : ndarray) (k : Z)
      (rnd : nat -> nat) (i j : nat) :
  wf data -> 2 <= length (rows data) -> ncols data = sample -> 1 <= sample ->
  i < j -> (Z.of_nat j < k)%Z -> rnd i mod sample = rnd j mod sample ->
  forall fuel, cluster_loop sample data k rnd fuel = Timeout.
Proof.
  intros Hwf Hrows Hcols Hpos Hij Hjk Hdraw fuel.
  unfold cluster_loop. rewrite (seeding_ret data k rnd Hcols Hpos). simpl.
  pose proof (seeding_shape data k rnd) as Hshape.
  pose proof (seeding_finite k rnd Hwf Hrows) as Hfin.
  assert (Hk : (1 <= k)%Z) by lia.
  assert (Hrow : nth i (seeds data k rnd) [] = nth j (seeds data k rnd) []).
  { rewrite !seeding_nth by lia. rewrite Hcols, Hdraw. reflexivity. }
  assert (Hskip : Forall (fun w => w <> j) (assign data (seeds data k rnd))).
  { unfold assign. apply Forall_map. apply Forall_forall. intros p _.
    apply nearest_skips_repeat with (i := i); try assumption;
      try (apply wf_cell; assumption).
    destruct Hshape as [-> _]. lia. }
  eapply empty_cluster_diverges with (st := mk_locals _ _ _ _ _).
  - assumption.
  - exact Hshape.
  - apply iteration_eq; eassumption.
  - simpl. apply Exists_exists.
    exists (members data (assign data (seeds data k rnd)) j). split.
    + unfold groups. apply in_map. apply range_In. assumption.
    + simpl. apply (proj2 (@select_none num j _ [] Hskip)).
Qed.

(** ** C7, C4: a cluster that loses its points *)

Lemma map_const_length (A B C : Type) (c : C) (l1 : list A) (l2 : list B) :
  length l1 = length l2 -> map (fun _ => c) l1 = map (fun _ => c) l2.
Proof.
  revert l2; induction l1 as [|a l1 IH]; intros [|b l2] H; simpl in *;
    try discriminate; [reflexivity|].
  f_equal. apply IH. lia.
Qed.

(** C7, on the code, in general.  Let a pass of the loop body, on centroids
    [cs] of the shape [cluster] gives them, end with cluster [i] without
    points.  No exception is raised, but nothing resolves the case: the
    recomputed centroid [i] is NaN in every coordinate, the test that
    closes the loop fails at this pass, and it fails at every later pass,
    so the loop started from [cs] never returns, whatever the iteration
    budget. *)
Theorem C7_empty_cluster_never_returns (sample : nat) (data : ndarray) (k : Z)
        (cs : list (list num)) (st : locals) (b : bool) (i : nat) :
  wf data -> centroid_shape data k cs ->
  iteration sample data k cs = Ret (st, b) ->
  i < Z.to_nat k -> ncols (nth i (clusters st) data) = 0 ->
  nth i (centroids st) [] = map (fun _ => NaN) (rows data) /\
  2 <= length (rows data) /\
  b = false /\
  forall fuel, while_not_done sample fuel data k cs = Timeout.
Proof.
  intros Hwf Hshape Hit Hi Hempty.
  pose proof (iteration_facts _ _ _ _ Hit) as (Hk & Hrows2 & Hcols & _).
  assert (Hlen : length (clusters st) = Z.to_nat k).
  { pose proof (iteration_facts _ _ _ _ Hit) as (_ & _ & _ & _ & _ & _ & Hcl & _).
    rewrite <- (Forall2_length Hcl). apply range_length. }
  assert (Hin : In (nth i (clusters st) data) (clusters st))
    by (apply nth_In; lia).
  destruct (@empty_cluster_diverges sample data k cs st b Hwf Hshape Hit)
    as (_ & Hb & Hloop).
  { apply Exists_exists. exists (nth i (clusters st) data). split; assumption. }
  split; [|split; [assumption | split; assumption]].
  rewrite iteration_eq in Hit by assumption. injection Hit as <- _.
  cbn [clusters centroids] in *.
  unfold groups in Hempty. rewrite nth_map_range in Hempty by assumption.
  unfold recompute, groups. rewrite map_map.
  rewrite (nth_map_range (fun i => average_axis1 (members data (assign data cs) i)))
    by assumption.
  apply average_empty. exact Hempty.
Qed.

Lemma C7_empty_cluster_never_returns_witness :
  exists st,
    iteration 3 three_points 3 [ints [0; 0]; ints [4; 0]; ints [4; 0]]%Z
    = Ret (st, false) /\
    ncols (nth 2 (clusters st) three_points) = 0 /\
    nth 2 (centroids st) [] = [NaN; NaN] /\
    forall fuel,
      while_not_done 3 fuel three_points 3 [ints [0; 0]; ints [4; 0]; ints [4; 0]]%Z
      = Timeout.
Proof.
  assert (H : exists st,
             iteration 3 three_points 3 [ints [0; 0]; ints [4; 0]; ints [4; 0]]%Z
             = Ret (st, false) /\
             ncols (nth 2 (clusters st) three_points) = 0).
  { eexists. split; vm_compute; reflexivity. }
  destruct H as (st & Hit & He). exists st.
  split; [exact Hit|]. split; [exact He|].
  destruct (@C7_empty_cluster_never_returns 3 three_points 3%Z
              [ints [0; 0]; ints [4; 0]; ints [4; 0]]%Z st false 2)
    as (Hc & _ & _ & Hloop).
  - repeat constructor.
  - split; [reflexivity | repeat constructor].
  - exact Hit.
  - simpl. lia.
  - exact He.
  - split; [exact Hc | exact Hloop].
Defined.

(** C4, on the code, in general.  Whatever the dataset (two rows or more,
    [sample >= 1] columns) and whatever [k], as soon as two of the [k]
    draws of the seeding give the same column, no iteration budget is
    enough: [cluster] never returns.  The draws are made with replacement,
    so this happens on valid inputs. *)
Theorem C4_repeated_draw_never_terminates (sample : nat) (data : ndarray) (k : Z)
        (rnd : nat -> nat) (i j : nat) :
  wf data -> 2 <= length (rows data) -> ncols data = sample -> 1 <= sample ->
  i < j -> (Z.of_nat j < k)%Z -> rnd i mod sample = rnd j mod sample ->
  forall fuel, cluster sample data k rnd fuel = Timeout.
Proof.
  intros Hwf Hrows Hcols Hpos Hij Hjk Hdraw fuel. unfold cluster.
  rewrite (@repeated_draw_diverges sample data k rnd i j Hwf Hrows Hcols Hpos Hij Hjk Hdraw).
  reflexivity.
Qed.

Lemma C4_repeated_draw_never_terminates_witness :
  (wf two_points /\ ncols two_points = 2 /\ 0 mod 2 = 0 mod 2) /\
  forall fuel, cluster 2 two_points 2 (fun _ => 0) fuel = Timeout.
Proof.
  split; [split; [repeat constructor | split; reflexivity]|].
  apply (@C4_repeated_draw_never_terminates 2 two_points 2%Z (fun _ => 0) 0 1).
  - repeat constructor.
  - simpl; lia.
  - reflexivity.
  - lia.
  - lia.
  - lia.
  - reflexivity.
Defined.


(** ** C1: the test that closes the loop *)

(** C1, on the code.  Four points, [k = 2], draws 0 and 3.  The first pass
    moves the centroids from (1, 3), (3, 3) to (1.5, 3.5), (3.5, 1.5); the
    four differences -0.5, -0.5, -0.5 and 1.5 add up to 0, so the loop is
    left at that pass although no coordinate of any centroid kept its
    value, and one more pass would have changed the assignment again.
    Every number of this run is a multiple of 1/2 that float64 holds
    exactly: nothing is rounded. *)
Theorem C1_loop_left_on_moved_centroids :
  exists st st',
    cluster_loop 4 four_points 2 draws_0_3 1 = Ret st /\
    prev_centroids st = [ints [1; 3]; ints [3; 3]]%Z /\
    centroids st = [[dyadic 3 (-1); dyadic 7 (-1)]; [dyadic 7 (-1); dyadic 3 (-1)]] /\
    sub2 (prev_centroids st) (centroids st)
    = [[dyadic (-1) (-1); dyadic (-1) (-1)]; [dyadic (-1) (-1); dyadic 3 (-1)]] /\
    Forall2 (Forall2 (fun a b => ~ feq a b)) (prev_centroids st) (centroids st) /\
    ~ same_centroids (prev_centroids st) (centroids st) /\
    iteration 4 four_points 2 (centroids st) = Ret (st', false) /\
    winners st = [0; 1; 0; 1] /\ winners st' = [0; 1; 0; 0].
Proof.
  eexists. eexists.
  split; [vm_compute; reflexivity|].
  split; [reflexivity|]. split; [vm_compute; reflexivity|].
  split; [vm_compute; reflexivity|].
  split; [|split].
  - repeat constructor; vm_compute; discriminate.
  - intro H. simpl in H. inversion H as [|r1 r2 l1 l2 Hrow _]; subst.
    inversion Hrow as [|a b l3 l4 Hab _]; subst.
    vm_compute in Hab. discriminate.
  - split; [vm_compute; reflexivity|]. split; reflexivity.
Qed.
(** ** C6: arguments outside the contract *)

Lemma cluster_small_k (sample : nat) (data : ndarray) (k : Z) (rnd : nat -> nat)
      (fuel : nat) :
  (k < 1)%Z -> cluster sample data k rnd (S fuel) = Raise ValueError.
Proof.
  intro Hk. unfold cluster, cluster_loop, initial_centroids.
  rewrite (range_nil Hk). simpl.
  unfold iteration, fill_distances, empty. rewrite (range_nil Hk).
  destruct (k <? 0)%Z; reflexivity.
Qed.

Lemma cluster_no_points (sample : nat) (data : ndarray) (k : Z) (rnd : nat -> nat)
      (fuel : nat) :
  (1 <= k)%Z -> ncols data = 0 ->
  cluster sample data k rnd fuel
  = Raise (if sample =? 0 then ValueError else IndexError).
Proof.
  intros Hk Hcols. unfold cluster, cluster_loop, initial_centroids.
  rewrite (range_cons Hk). simpl. unfold randint.
  destruct (sample =? 0); [reflexivity|]. simpl.
  unfold column. rewrite Hcols. reflexivity.
Qed.

(** C6, as amended.  [cluster] validates nothing itself.  With [k < 1] the
    first pass of the loop raises NumPy's ValueError (a negative dimension,
    or the argmin of an empty sequence); on a dataset without points, and
    [k >= 1], the seeding raises (ValueError when [sample] is 0, IndexError
    otherwise).  No check is made of [k] against the number of points. *)
Theorem C6_bad_arguments_raise (sample : nat) (data : ndarray) (k : Z)
        (rnd : nat -> nat) (fuel : nat) :
  ((k < 1)%Z -> cluster sample data k rnd (S fuel) = Raise ValueError) /\
  ((1 <= k)%Z -> ncols data = 0 ->
   cluster sample data k rnd fuel
   = Raise (if sample =? 0 then ValueError else IndexError)).
Proof.
  split; [apply cluster_small_k | apply cluster_no_points].
Qed.

Lemma C6_bad_arguments_raise_witness :
  cluster 2 two_points 0 (fun _ => 0) 1 = Raise ValueError /\
  cluster 2 (mk_ndarray 0 [[]; []]) 1 (fun _ => 0) 0 = Raise IndexError.
Proof.
  destruct (C6_bad_arguments_raise 2 two_points 0 (fun _ => 0) 0) as [H1 _].
  destruct (C6_bad_arguments_raise 2 (mk_ndarray 0 [[]; []]) 1 (fun _ => 0) 0) as [_ H2].
  split.
  - apply H1. lia.
  - apply H2; [lia | reflexivity].
Defined.

(** C6 as stated fails: with one point and [k = 2], above the number of
    points, nothing is raised, whatever the iteration budget; the call
    goes into its loop and stays there. *)
Lemma C6_k_above_n_not_rejected :
  ~ (forall (sample : nat) (data : ndarray) (k : Z) (rnd : nat -> nat),
        wf data -> ncols data = sample ->
        (k < 1)%Z \/ (Z.of_nat (ncols data) < k)%Z \/ ncols data = 0 ->
        exists fuel e, cluster sample data k rnd fuel = Raise e).
Proof.
  intro H.
  destruct (H 1 one_point 2%Z (fun _ => 0)) as (fuel & e & Hc).
  - repeat constructor.
  - reflexivity.
  - right. left. simpl. lia.
  - unfold cluster in Hc.
    rewrite (@repeated_draw_diverges 1 one_point 2%Z (fun _ => 0) 0 1) in Hc;
      [discriminate | repeat constructor | simpl; lia | reflexivity | lia | lia | lia
       | reflexivity].
Qed.

(** ** C10: the global [sample] *)

Lemma randint_bound (n r j : nat) : randint n r = Ret j -> j < n.
Proof.
  unfold randint. destruct (Nat.eqb_spec n 0); [discriminate|].
  intro H; injection H as <-. apply Nat.mod_upper_bound. assumption.
Qed.

Lemma cluster_ret_cols (sample : nat) (data : ndarray) (k : Z) (rnd : nat -> nat)
      (fuel : nat) (v : pyvalue * list plt) :
  cluster sample data k rnd fuel = Ret v -> ncols data = sample.
Proof.
  unfold cluster. intro H. inv_ret H.
  apply cluster_loop_ret in Ha. destruct Ha as [cs' Hit].
  apply iteration_facts in Hit. tauto.
Qed.

Lemma cluster_draw_out_of_bounds (sample : nat) (data : ndarray) (k : Z)
      (rnd : nat -> nat) (fuel : nat) :
  (1 <= k)%Z -> ncols data <= rnd 0 < sample ->
  cluster sample data k rnd fuel = Raise IndexError.
Proof.
  intros Hk Hr. unfold cluster, cluster_loop, initial_centroids.
  rewrite (range_cons Hk). simpl. unfold randint.
  destruct (Nat.eqb_spec sample 0); [lia|]. simpl.
  rewrite Nat.mod_small by lia. unfold column.
  replace (rnd 0 <? ncols data) with false by (symmetry; apply Nat.ltb_ge; lia).
  reflexivity.
Qed.

Lemma mapM_no_timeout (A B : Type) (f : A -> outcome B) (l : list A) :
  (forall a, f a <> Timeout) -> mapM f l <> Timeout.
Proof.
  intro Hf. induction l as [|a l IH]; simpl; [discriminate|].
  specialize (Hf a). destruct (f a); simpl; try congruence.
  destruct (mapM f l); simpl; congruence.
Qed.

Lemma bind_no_timeout (A B : Type) (c : outcome A) (f : A -> outcome B) :
  c <> Timeout -> (forall a, f a <> Timeout) -> bind c f <> Timeout.
Proof. intros Hc Hf. destruct c; simpl; [apply Hf | discriminate | congruence]. Qed.

Lemma item_no_timeout (A : Type) (i : nat) (l : list A) : item i l <> Timeout.
Proof. unfold item. destruct (nth_error l i); discriminate. Qed.

Lemma broadcast_row_no_timeout (A : Type) (n : nat) (v : list A) :
  broadcast_row n v <> Timeout.
Proof.
  unfold broadcast_row. destruct (length v =? n); [discriminate|].
  destruct v as [|x [|y v]]; discriminate.
Qed.

(** A pass of the loop body has no loop of its own. *)
Lemma iteration_no_timeout (sample : nat) (data : ndarray) (k : Z)
      (cs : list (list num)) :
  iteration sample data k cs <> Timeout.
Proof.
  unfold iteration. apply bind_no_timeout.
  - unfold fill_distances. apply bind_no_timeout.
    + unfold empty. destruct (k <? 0)%Z; discriminate.
    + intros _. apply mapM_no_timeout. intro d.
      apply bind_no_timeout; [apply item_no_timeout|]. intro c.
      apply bind_no_timeout; [|intro v; apply broadcast_row_no_timeout].
      unfold all_dist, row.
      repeat (apply bind_no_timeout; [apply item_no_timeout | intro]).
      discriminate.
  - intro ds. apply bind_no_timeout.
    + unfold argmin_axis0. destruct ds as [|r ds]; [discriminate|].
      apply mapM_no_timeout. intro j. simpl. discriminate.
    + intro ws. apply bind_no_timeout; [|intros; discriminate].
      unfold split. apply mapM_no_timeout. intro i. unfold compress.
      destruct (length (map (Nat.eqb i) ws) =? ncols data); discriminate.
Qed.

Lemma iteration_raises (sample : nat) (data : ndarray) (k : Z) (cs : list (list num)) :
  ncols data <> sample -> exists e, iteration sample data k cs = Raise e.
Proof.
  intro Hne. destruct (iteration sample data k cs) as [[st b]|e|] eqn:E.
  - apply iteration_facts in E. tauto.
  - exists e. reflexivity.
  - exfalso. exact (iteration_no_timeout _ _ _ _ E).
Qed.

Lemma cluster_raises (sample : nat) (data : ndarray) (k : Z) (rnd : nat -> nat)
      (fuel : nat) :
  ncols data <> sample -> exists e, cluster sample data k rnd (S fuel) = Raise e.
Proof.
  intro Hne. unfold cluster, cluster_loop.
  assert (Hinit : initial_centroids sample data k rnd <> Timeout).
  { unfold initial_centroids. apply mapM_no_timeout. intro i.
    apply bind_no_timeout.
    - unfold randint. destruct (sample =? 0); discriminate.
    - intro r. unfold column. destruct (r <? ncols data); discriminate. }
  destruct (initial_centroids sample data k rnd) as [cs|e|]; simpl; try congruence.
  - destruct (@iteration_raises sample data k cs Hne) as [e He]. rewrite He. simpl.
    exists e. reflexivity.
  - exists e. reflexivity.
Qed.

(** C10.  [cluster] works on the global [sample], not on the size [N] of
    its argument.  The seeding draws column indices in [0, sample); the
    distance matrix has [sample] columns and [winners] has [sample]
    entries.  With fewer than [sample] points a draw can fall outside the
    data, and the call then raises IndexError.  Whenever [N] differs from
    [sample], every pass of the loop body raises before any point is
    assigned (so with more than [sample] points the points from index
    [sample] on are never assigned), and the call raises as soon as the
    loop is entered: it returns only if [N = sample]. *)
Theorem C10_depends_on_global_sample (sample : nat) (data : ndarray) (k : Z) :
  (forall r j, randint sample r = Ret j -> j < sample) /\
  (forall cs st b,
      iteration sample data k cs = Ret (st, b) ->
      Forall (fun r => length r = sample) (distances st) /\
      length (winners st) = sample) /\
  (ncols data < sample -> (1 <= k)%Z ->
   exists rnd, rnd 0 < sample /\
               forall fuel, cluster sample data k rnd fuel = Raise IndexError) /\
  (ncols data <> sample ->
   (forall cs, exists e, iteration sample data k cs = Raise e) /\
   (forall rnd fuel, exists e, cluster sample data k rnd (S fuel) = Raise e)) /\
  (forall rnd fuel v, cluster sample data k rnd fuel = Ret v -> ncols data = sample).
Proof.
  split; [|split; [|split; [|split]]].
  - intros r j. apply randint_bound.
  - intros cs st b H. apply iteration_facts in H. tauto.
  - intros Hlt Hk. exists (fun _ => ncols data). split; [assumption|].
    intro fuel. apply cluster_draw_out_of_bounds; [assumption | lia].
  - intro Hne. split.
    + intro cs. apply iteration_raises. assumption.
    + intros rnd fuel. apply cluster_raises. assumption.
  - intros rnd fuel v. apply cluster_ret_cols.
Qed.

Lemma C10_depends_on_global_sample_witness :
  (exists rnd, rnd 0 < demo_sample /\
               forall fuel, cluster demo_sample two_points 3 rnd fuel = Raise IndexError) /\
  (exists e, iteration demo_sample two_points 3 [ints [0; 2]%Z] = Raise e) /\
  ncols two_points = 2.
Proof.
  destruct (C10_depends_on_global_sample demo_sample two_points 3)
    as (_ & _ & Hfew & Hdiff & _).
  destruct (C10_depends_on_global_sample 2 two_points 1)
    as (_ & _ & _ & _ & Hret).
  split; [|split].
  - apply Hfew; [unfold demo_sample, children, women, men; simpl; lia | lia].
  - apply Hdiff. unfold demo_sample, children, women, men. simpl. lia.
  - apply (Hret (fun _ => 0) 1
             (PyNone, [Plot (ints [0; 2]%Z) (ints [2; 0]%Z) "go"%string; Show])).
    vm_compute. reflexivity.
Defined.

(** ** Division by one *)

Lemma of_nat_1 : of_nat 1 = S754_finite false 4503599627370496 (-52).
Proof. reflexivity. Qed.

(** A mantissa that fits its exponent is left alone by the rounding. *)
Lemma round_exact (s : bool) (m : positive) (e : Z) :
  bounded prec emax m e = true ->
  binary_round_aux prec emax s (Zpos m) e loc_Exact = S754_finite s m e.
Proof.
  intro H. unfold bounded in H. apply andb_true_iff in H. destruct H as [Hc He].
  unfold canonical_mantissa in Hc. apply Z.eqb_eq in Hc.
  unfold binary_round_aux, shr_fexp. cbn [Zdigits2 shr_record_of_loc].
  rewrite Hc, Z.sub_diag. cbn [shr shr_m loc_of_shr_record round_nearest_even Zdigits2].
  rewrite Hc, Z.sub_diag. cbn [shr shr_m]. rewrite He. reflexivity.
Qed.

(** Twice the mantissa one exponent below is rounded back. *)
Lemma round_exact_double (s : bool) (m : positive) (e : Z) :
  bounded prec emax m e = true ->
  binary_round_aux prec emax s (Zpos m~0) (e - 1) loc_Exact = S754_finite s m e.
Proof.
  intro H. unfold bounded in H. apply andb_true_iff in H. destruct H as [Hc He].
  unfold canonical_mantissa in Hc. apply Z.eqb_eq in Hc.
  unfold binary_round_aux, shr_fexp. cbn [Zdigits2 shr_record_of_loc digits2_pos].
  rewrite Pos2Z.inj_succ.
  replace (Z.succ (Zpos (digits2_pos m)) + (e - 1))%Z with (Zpos (digits2_pos m) + e)%Z by lia.
  rewrite Hc. replace (e - (e - 1))%Z with 1%Z by lia.
  cbn [shr iter_pos shr_1 orb shr_m loc_of_shr_record round_nearest_even Zdigits2].
  replace (e - 1 + 1)%Z with e by lia.
  rewrite Hc, Z.sub_diag. cbn [shr shr_m]. rewrite He. reflexivity.
Qed.

Lemma div_eucl_mul (a b : Z) : (0 < b)%Z -> Z.div_eucl (a * b) b = (a, 0%Z).
Proof.
  intro Hb.
  assert (Hq : (a * b / b = a)%Z) by (apply Z.div_mul; lia).
  assert (Hr : ((a * b) mod b = 0)%Z) by (apply Z.mod_mul; lia).
  unfold Z.div, Z.modulo in Hq, Hr.
  destruct (Z.div_eucl (a * b) b) as [q r]. simpl in Hq, Hr. congruence.
Qed.

Lemma div_core_one (m : positive) (e : Z) :
  bounded prec emax m e = true ->
  SFdiv_core_binary prec emax (Zpos m) e 4503599627370496 (-52)
  = (if (e =? -1074)%Z then (Zpos m, e, loc_Exact) else (Zpos m~0, (e - 1)%Z, loc_Exact)).
Proof.
  intro H. unfold bounded in H. apply andb_true_iff in H. destruct H as [Hc He].
  unfold canonical_mantissa in Hc. apply Z.eqb_eq in Hc. apply Z.leb_le in He.
  unfold SFdiv_core_binary. cbn [Zdigits2].
  change (Zpos (digits2_pos 4503599627370496)) with 53%Z.
  set (d := Zpos (digits2_pos m)) in *.
  assert (Hd : (0 < d)%Z) by (subst d; lia).
  unfold fexp, emin, prec, emax in *.
  destruct (Z.eqb_spec e (-1074)) as [E|E].
  - replace (Z.min (Z.max (d + e - (53 + -52) - 53) (3 - 1024 - 53)) (e - -52))%Z
      with e by lia.
    replace (e - -52 - e)%Z with 52%Z by lia.
    rewrite Z.shiftl_mul_pow2 by lia.
    change (2 ^ 52)%Z with 4503599627370496%Z.
    rewrite div_eucl_mul by lia. reflexivity.
  - replace (Z.min (Z.max (d + e - (53 + -52) - 53) (3 - 1024 - 53)) (e - -52))%Z
      with (e - 1)%Z by lia.
    replace (e - -52 - (e - 1))%Z with 53%Z by lia.
    rewrite Z.shiftl_mul_pow2 by lia.
    replace (Zpos m * 2 ^ 53)%Z with (Zpos m~0 * 4503599627370496)%Z
      by (rewrite (Pos2Z.inj_xO m); change (2 ^ 53)%Z with (2 * 4503599627370496)%Z; lia).
    rewrite div_eucl_mul by lia. reflexivity.
Qed.

(** [x / 1.0] is [x]. *)
Lemma div_one (x : num) : number x = true -> div x (of_nat 1) = x.
Proof.
  intro H. rewrite of_nat_1. unfold number in H. apply andb_true_iff in H.
  destruct H as [Hf Hv].
  destruct x as [s|s| |s m e]; try discriminate.
  - destruct s; reflexivity.
  - cbn [valid_binary] in Hv. unfold div, SFdiv. rewrite (div_core_one _ _ Hv).
    assert (Hs : xorb s false = s) by (destruct s; reflexivity). rewrite Hs.
    destruct (e =? -1074)%Z.
    + apply round_exact. assumption.
    + apply round_exact_double. assumption.
Qed.

Lemma mean_single (x : num) : number x = true -> mean 1 [x] = x.
Proof. intro H. unfold mean, add_reduce. simpl. apply div_one. assumption. Qed.

(** ** Centroids that did not move *)

Lemma feq_refl (a : num) : isnan a = false -> feq a a.
Proof. intro H. keys. reflexivity. Qed.

Lemma feq_sub_zero (a b : num) :
  isfinite a = true -> feq a b -> iszero (sub a b) = true.
Proof.
  intros Ha H.
  destruct a as [sa|sa| |sa ma ea]; try discriminate;
    destruct b as [sb|sb| |sb mb eb];
    try (destruct sa; discriminate); try (destruct sb; discriminate).
  - destruct sa, sb; reflexivity.
  - keys. destruct sa, sb; simpl in H; try discriminate.
    + injection H as He Hm.
      assert (ea = eb) by lia. assert (ma = mb) by lia. subst.
      rewrite sub_self by reflexivity. reflexivity.
    + injection H as He Hm. subst.
      rewrite sub_self by reflexivity. reflexivity.
Qed.

(** Centroids that kept every coordinate close the loop, as long as the
    coordinates are finite. *)
Lemma same_centroids_unchanged (prev cur : list (list num)) :
  Forall (Forall (fun x => isfinite x = true)) prev ->
  same_centroids prev cur -> unchanged prev cur = true.
Proof.
  intros Hfin H. unfold unchanged. apply sum_zeros.
  unfold sub2. induction H as [|r s prev cur Hrow _ IH]; simpl; [constructor|].
  inversion Hfin as [|? ? Hr Hrest]; subst.
  apply Forall_app. split; [|apply IH; assumption].
  clear - Hrow Hr. induction Hrow as [|a b r s Hab _ IH]; simpl; constructor.
  - inversion Hr; subst. apply feq_sub_zero; assumption.
  - inversion Hr; subst. apply IH. assumption.
Qed.

Lemma same_centroids_refl (cs : list (list num)) :
  Forall (Forall (fun x => isfinite x = true)) cs -> same_centroids cs cs.
Proof.
  intro H. unfold same_centroids. induction H as [|c cs Hc _ IH]; constructor; [|assumption].
  induction Hc as [|x c Hx _ IHc]; constructor; [|assumption].
  apply feq_refl. destruct x; try reflexivity; discriminate.
Qed.

(** ** C9: as many clusters as points *)

Lemma injective_onto (f : nat -> nat) (n : nat) :
  (forall i, i < n -> f i < n) ->
  (forall i j, i < n -> j < n -> f i = f j -> i = j) ->
  forall p, p < n -> exists d, d < n /\ f d = p.
Proof.
  intros Hran Hinj p Hp.
  assert (Hnd : NoDup (map f (seq 0 n))).
  { apply NoDup_map_NoDup_ForallPairs; [|apply seq_NoDup].
    intros i j Hi Hj. apply in_seq in Hi, Hj. apply Hinj; lia. }
  assert (Hincl : incl (map f (seq 0 n)) (seq 0 n)).
  { intros q Hq. apply in_map_iff in Hq. destruct Hq as (i & <- & Hi).
    apply in_seq in Hi. apply in_seq. specialize (Hran i). lia. }
  assert (Hback : incl (seq 0 n) (map f (seq 0 n))).
  { apply NoDup_length_incl; [assumption | | assumption].
    rewrite length_map. lia. }
  assert (Hin : In p (map f (seq 0 n))) by (apply Hback; apply in_seq; lia).
  apply in_map_iff in Hin. destruct Hin as (d & Hd & Hdn).
  apply in_seq in Hdn. exists d. split; [lia | assumption].
Qed.

Lemma select_single (A : Type) (d : nat) (ws : list nat) (r : list A) (q : nat) (dflt : A) :
  length ws = length r -> q < length ws ->
  (forall p, p < length ws -> (nth p ws 0 = d <-> p = q)) ->
  select (map (Nat.eqb d) ws) r = [nth q r dflt] /\
  count_true (map (Nat.eqb d) ws) = 1.
Proof.
  revert r q. induction ws as [|w ws IH]; intros r q Hlen Hq Hiff; simpl in *; [lia|].
  destruct r as [|x r]; simpl in Hlen; [lia|].
  destruct q as [|q].
  - assert (Hw : w = d) by (apply (Hiff 0); [lia | reflexivity]).
    subst w.
    assert (Hrest : Forall (fun w => w <> d) ws).
    { apply Forall_forall. intros w Hin Hw.
      destruct (In_nth ws w 0 Hin) as (p & Hp & Hnth).
      assert (S p = 0) by (apply (Hiff (S p)); [lia | simpl; congruence]).
      discriminate. }
    destruct (select_none r Hrest) as [Hs Hc].
    unfold count_true in *. simpl. rewrite Nat.eqb_refl. simpl.
    rewrite Hs, Hc. split; reflexivity.
  - assert (Hw : w <> d).
    { intro Hw. assert (0 = S q) by (apply (Hiff 0); [lia | assumption]).
      discriminate. }
    destruct (Nat.eqb_spec d w) as [E|_]; [symmetry in E; contradiction|].
    destruct (IH r q) as [Hs Hc].
    + lia.
    + lia.
    + intros p Hp. specialize (Hiff (S p)). simpl in Hiff.
      split; intro Hx.
      * assert (S p = S q) by (apply Hiff; [lia | assumption]). lia.
      * apply Hiff; [lia | congruence].
    + unfold count_true in *. simpl.
      destruct (Nat.eqb_spec d w) as [E|_]; [symmetry in E; contradiction|].
      split; assumption.
Qed.

(** The cells of a well-formed array are binary64 numbers. *)
Lemma wf_number (data : ndarray) (r : list num) (q : nat) :
  wf data -> In r (rows data) -> number (nth q r zero) = true.
Proof.
  intros Hwf Hr. apply wf_numbers in Hwf. rewrite Forall_forall in Hwf.
  specialize (Hwf r Hr).
  destruct (Nat.lt_ge_cases q (length r)) as [Hq|Hq].
  - rewrite Forall_forall in Hwf. apply Hwf. apply nth_In. assumption.
  - rewrite nth_overflow by assumption. reflexivity.
Qed.

Lemma point_isfinite (data : ndarray) (q : nat) :
  wf data -> Forall (fun x => isfinite x = true) (point data q).
Proof.
  intro Hwf. unfold point. apply Forall_map. apply Forall_forall. intros r Hr.
  pose proof (@wf_number data r q Hwf Hr) as H. unfold number in H.
  apply andb_true_iff in H. apply H.
Qed.

(** A point is at computed distance [0.0] from itself. *)
Lemma dist2_self (data : ndarray) (p : nat) :
  wf data -> 2 <= length (rows data) ->
  dist2 (nth p (nth 0 (rows data) []) zero) (nth p (nth 1 (rows data) []) zero)
        (point data p) = zero.
Proof.
  intros Hwf Hrows.
  pose proof (wf_cell 0 p Hwf) as H0. pose proof (wf_cell 1 p Hwf) as H1.
  unfold dist2, point.
  destruct (rows data) as [|xs [|ys rest]]; simpl in Hrows; try lia.
  cbn [map nth] in *. rewrite (sub_self _ H0), (sub_self _ H1). reflexivity.
Qed.

Lemma fle_zero_nonneg (a : num) : nonneg a = true -> fle a zero -> iszero a = true.
Proof.
  destruct a as [s|[|]| |[|] m e]; simpl; intros Hn H; try discriminate; reflexivity.
Qed.

Section KEqualsN.

Variable data : ndarray.
Variable rnd : nat -> nat.
Variable n : nat.

Hypothesis data_wf : wf data.
Hypothesis data_rows : 2 <= length (rows data).
Hypothesis data_cols : ncols data = n.
Hypothesis n_pos : 1 <= n.
Hypothesis data_separated : separated data.
Hypothesis draws_distinct : distinct_draws n rnd.

Local Abbreviation k := (Z.of_nat n).
Local Abbreviation cs0 := (seeds data (Z.of_nat n) rnd).

Lemma draw_bound (i : nat) : rnd i mod n < n.
Proof. apply seeding_draw_bound. assumption. Qed.

Lemma seeds_shape : centroid_shape data k cs0.
Proof. apply seeding_shape. Qed.

Lemma seeds_nth (d : nat) :
  d < n -> nth d cs0 [] = point data (rnd d mod n).
Proof.
  intro Hd. rewrite seeding_nth by lia. rewrite data_cols. reflexivity.
Qed.

Lemma seeds_length : length cs0 = n.
Proof. destruct seeds_shape as [H _]. rewrite H. lia. Qed.

Lemma seeds_finite : Forall (fun c => nan01 c = false) cs0.
Proof. apply seeding_finite; assumption. Qed.

Lemma seeds_isfinite : Forall (Forall (fun x => isfinite x = true)) cs0.
Proof.
  unfold seeds. apply Forall_map. apply Forall_forall. intros i _.
  apply point_isfinite. assumption.
Qed.

Lemma seeds_nonempty : cs0 <> [].
Proof. intro E. pose proof seeds_length as H. rewrite E in H. simpl in H. lia. Qed.

(** Every point is given the cluster that was seeded on it. *)
Lemma winner_draw (p : nat) :
  p < n ->
  nth p (assign data cs0) 0 < n /\
  rnd (nth p (assign data cs0) 0) mod n = p.
Proof.
  intro Hp. rewrite assign_nth by lia.
  set (x := nth p (nth 0 (rows data) []) zero).
  set (y := nth p (nth 1 (rows data) []) zero).
  assert (Hnn : Forall (fun c => nonneg (dist2 x y c) = true) cs0).
  { eapply Forall_impl; [|apply seeds_finite]. simpl. intros c Hc.
    apply dist2_data; assumption. }
  assert (Hnum : Forall (fun c => isnan (dist2 x y c) = false) cs0).
  { eapply Forall_impl; [|exact Hnn]. simpl. intros c Hc.
    apply nonneg_not_nan. assumption. }
  destruct (nearest_least x y seeds_nonempty Hnum) as (Hw & Hle & _).
  rewrite seeds_length in Hw, Hle.
  split; [assumption|].
  destruct (injective_onto (fun i => rnd i mod n) (fun i _ => draw_bound i)
                           draws_distinct Hp) as (d & Hd & Hdp).
  specialize (Hle d Hd).
  rewrite (seeds_nth Hd), (seeds_nth Hw) in Hle.
  simpl in Hdp. rewrite Hdp in Hle.
  pose proof (dist2_self p data_wf data_rows) as Hself. fold x y in Hself.
  rewrite Hself in Hle.
  apply fle_zero_nonneg in Hle.
  - destruct (Nat.eq_dec (rnd (nearest x y cs0) mod n) p) as [E|E]; [assumption|].
    assert (Hq : rnd (nearest x y cs0) mod n < ncols data)
      by (rewrite data_cols; apply draw_bound).
    assert (Hpd : p < ncols data) by lia.
    pose proof (data_separated Hpd Hq (not_eq_sym E)) as Hsep.
    fold x y in Hsep. rewrite is_zero_iszero in Hsep. congruence.
  - apply dist2_data; [assumption|]. apply point_finite; assumption.
Qed.

Lemma assign_draw (p d : nat) :
  p < n -> d < n -> (nth p (assign data cs0) 0 = d <-> p = rnd d mod n).
Proof.
  intros Hp Hd. destruct (winner_draw Hp) as [Hw Hr]. split.
  - intros <-. symmetry. assumption.
  - intros ->. apply draws_distinct; assumption.
Qed.

Lemma assign_cols : length (assign data cs0) = n.
Proof. unfold assign. rewrite length_map, length_seq. assumption. Qed.

Lemma members_singleton (d : nat) :
  d < n -> members data (assign data cs0) d = singleton data (rnd d mod n).
Proof.
  intro Hd. unfold members, singleton.
  assert (Hiff : forall p, p < length (assign data cs0) ->
                           (nth p (assign data cs0) 0 = d <-> p = rnd d mod n)).
  { intros p Hp. rewrite assign_cols in Hp. apply assign_draw; assumption. }
  assert (Hq : rnd d mod n < length (assign data cs0))
    by (rewrite assign_cols; apply draw_bound).
  pose proof (wf_lengths data_wf) as Hl. rewrite Forall_forall in Hl.
  f_equal.
  - destruct (rows data) as [|xs rest] eqn:E; simpl in data_rows; [lia|].
    assert (Hxs : length (assign data cs0) = length xs).
    { rewrite assign_cols, (Hl xs (or_introl eq_refl)). symmetry. assumption. }
    apply (proj2 (@select_single num d _ xs _ zero Hxs Hq Hiff)).
  - apply map_ext_in. intros r Hr.
    assert (Hlen : length (assign data cs0) = length r).
    { rewrite assign_cols, (Hl r Hr). symmetry. assumption. }
    apply (proj1 (@select_single num d _ r _ zero Hlen Hq Hiff)).
Qed.

(** The mean of a single point is the point. *)
Lemma mean_singleton (q : nat) :
  average_axis1 (singleton data q) = point data q.
Proof.
  unfold average_axis1, singleton, point. cbn [ncols rows]. rewrite map_map.
  apply map_ext_in. intros r Hr. apply mean_single. apply (@wf_number data r _ data_wf Hr).
Qed.

Lemma recompute_seeds : recompute data k cs0 = cs0.
Proof.
  unfold recompute, groups. rewrite map_map.
  unfold seeds at 2. apply map_ext_in.
  intros d Hd. apply range_In in Hd.
  rewrite members_singleton by lia. rewrite data_cols.
  apply mean_singleton.
Qed.

Lemma while_not_done_seeds :
  while_not_done n 1 data k cs0
  = Ret (mk_locals (dist_matrix data cs0) (assign data cs0)
                   (groups data k (assign data cs0)) cs0 (recompute data k cs0)).
Proof.
  simpl. rewrite iteration_eq; try assumption.
  - simpl. rewrite recompute_seeds.
    rewrite (same_centroids_unchanged seeds_isfinite (same_centroids_refl seeds_isfinite)).
    reflexivity.
  - lia.
  - apply seeds_shape.
Qed.

End KEqualsN.

(** C9, as amended.  On [n >= 1] points of which no two are at computed
    distance zero, with [sample = n] and [k = n], and when the [n] draws of
    the seeding fall on [n] different columns: the loop is left after
    exactly one pass, with the centroids unchanged; the point drawn for
    cluster [d] is the only point assigned to [d], cluster [d] holds that
    single point, and centroid [d] is that point. *)
Theorem C9_k_equals_n_distinct_draws (data : ndarray) (rnd : nat -> nat) (n : nat) :
  wf data -> 2 <= length (rows data) -> ncols data = n -> 1 <= n ->
  separated data -> distinct_draws n rnd ->
  exists st,
    cluster_loop n data (Z.of_nat n) rnd 1 = Ret st /\
    same_centroids (prev_centroids st) (centroids st) /\
    forall d, d < n ->
      let q := rnd d mod n in
      nth q (winners st) 0 = d /\
      (forall p, p < n -> nth p (winners st) 0 = d -> p = q) /\
      nth d (clusters st) data = singleton data q /\
      nth d (centroids st) [] = point data q.
Proof.
  intros Hwf Hrows Hcols Hn Hsep Hdraws.
  eexists. split.
  - unfold cluster_loop. rewrite (seeding_ret data (Z.of_nat n) rnd Hcols Hn).
    simpl. apply while_not_done_seeds; assumption.
  - simpl. split.
    + rewrite (recompute_seeds Hwf Hrows Hcols Hn Hsep Hdraws).
      apply same_centroids_refl. apply seeds_isfinite. assumption.
    + intros d Hd.
      assert (Hq : rnd d mod n < n) by (apply Nat.mod_upper_bound; lia).
      split; [|split; [|split]].
      * apply (assign_draw Hwf Hrows Hcols Hn Hsep Hdraws Hq Hd). reflexivity.
      * intros p Hp Hw. apply (assign_draw Hwf Hrows Hcols Hn Hsep Hdraws Hp Hd).
        assumption.
      * unfold groups. rewrite nth_map_range by lia.
        apply members_singleton; assumption.
      * rewrite (recompute_seeds Hwf Hrows Hcols Hn Hsep Hdraws).
        rewrite seeding_nth by lia. rewrite Hcols. reflexivity.
Qed.

Lemma two_points_separated : separated two_points.
Proof.
  intros p q Hp Hq Hne. simpl in Hp, Hq.
  destruct p as [|[|p]], q as [|[|q]]; try lia; reflexivity.
Qed.

Lemma C9_k_equals_n_distinct_draws_witness :
  exists st,
    cluster_loop 2 two_points 2 (fun i => i) 1 = Ret st /\
    same_centroids (prev_centroids st) (centroids st) /\
    forall d, d < 2 ->
      let q := d mod 2 in
      nth q (winners st) 0 = d /\
      (forall p, p < 2 -> nth p (winners st) 0 = d -> p = q) /\
      nth d (clusters st) two_points = singleton two_points q /\
      nth d (centroids st) [] = point two_points q.
Proof.
  apply (@C9_k_equals_n_distinct_draws two_points (fun i => i) 2).
  - repeat constructor.
  - simpl; lia.
  - reflexivity.
  - lia.
  - apply two_points_separated.
  - intros i j Hi Hj. rewrite !Nat.mod_small by assumption. auto.
Defined.

(** C9 as stated fails: the seeding draws with replacement.  On two
    points far apart with [k = 2], when both draws give column 0, the call
    never gets to a result, let alone to two singleton clusters. *)
Lemma C9_repeated_draw_no_result :
  ~ (forall (data : ndarray) (rnd : nat -> nat) (n : nat),
        wf data -> 2 <= length (rows data) -> ncols data = n -> 1 <= n ->
        separated data ->
        exists fuel st,
          cluster_loop n data (Z.of_nat n) rnd fuel = Ret st /\
          NoDup (winners st)).
Proof.
  intro H.
  destruct (H two_points (fun _ => 0) 2) as (fuel & st & Hc & _).
  - repeat constructor.
  - simpl; lia.
  - reflexivity.
  - lia.
  - apply two_points_separated.
  - rewrite (@repeated_draw_diverges 2 two_points (Z.of_nat 2) (fun _ => 0) 0 1) in Hc;
      [discriminate | repeat constructor | simpl; lia | reflexivity | lia | lia | lia
       | reflexivity].
Qed.

(** Points that differ need not be apart for the routine: the two points
    of [close_points] differ, the square of their difference underflows,
    [all_dist] finds both at distance [0.0] from the first centroid, the
    second cluster is empty and the call never returns, although the two
    draws fall on the two columns. *)
Lemma close_points_never_return :
  wf close_points /\
  ~ feq (nth 0 (nth 0 (rows close_points) []) NaN)
        (nth 1 (nth 0 (rows close_points) []) NaN) /\
  distinct_draws 2 (fun i => i) /\
  assign close_points (seeds close_points 2 (fun i => i)) = [0; 0] /\
  forall fuel, cluster_loop 2 close_points 2 (fun i => i) fuel = Timeout.
Proof.
  assert (Hwf : wf close_points) by (repeat constructor).
  split; [assumption|]. split; [intro H; discriminate H|].
  split; [intros i j Hi Hj; rewrite !Nat.mod_small by assumption; auto|].
  split; [reflexivity|].
  intro fuel. unfold cluster_loop.
  rewrite (@seeding_ret 2 close_points 2%Z (fun i => i) eq_refl) by lia.
  cbn [bind].
  eapply empty_cluster_diverges with (st := mk_locals _ _ _ _ _).
  - assumption.
  - apply seeding_shape.
  - apply iteration_eq; [assumption | simpl; lia | reflexivity | lia | apply seeding_shape].
  - cbn [clusters]. apply Exists_cons_tl, Exists_cons_hd. reflexivity.
Qed.

(** ** C5: the objective from one pass to the next

    Sums of rationals, cluster by cluster. *)


















Section Monotone.

Variable data : ndarray.

Hypothesis data_wf : wf data.
Hypothesis data_rows : 2 <= length (rows data).

Local Abbreviation xs := (nth 0%nat (rows data) []).
Local Abbreviation ys := (nth 1%nat (rows data) []).









End Monotone.





(** ** A single cluster

    With [k = 1] every point goes to cluster 0 and the centroid is the mean
    of the data whatever the seed.  When the means are finite numbers
    (no sum of a row overflows) the loop is left at the second pass at the
    latest, and [cluster] returns. *)

Lemma select_all (A : Type) (mask : list bool) (r : list A) :
  Forall (fun b => b = true) mask -> length mask = length r -> select mask r = r.
Proof.
  intro H. revert r. induction H as [|b mask -> _ IH]; intros [|x r] Hlen;
    simpl in *; try discriminate; [reflexivity|].
  rewrite IH by lia. reflexivity.
Qed.

Lemma nearest_single (x y : num) (c : list num) : nearest x y [c] = 0.
Proof. unfold nearest. simpl. destruct (isnan _); reflexivity. Qed.

Lemma assign_single (data : ndarray) (c : list num) :
  Forall (fun w => w = 0) (assign data [c]).
Proof.
  unfold assign. apply Forall_map. apply Forall_forall. intros p _.
  apply nearest_single.
Qed.

Lemma recompute_single (data : ndarray) (c : list num) :
  wf data -> recompute data 1 [c] = [map (mean (ncols data)) (rows data)].
Proof.
  intro Hwf. unfold recompute, groups. change (range 1) with [0]. cbn [map].
  unfold average_axis1, members. cbn [ncols rows].
  pose proof (assign_single data c) as H0.
  assert (Hlen : length (assign data [c]) = ncols data)
    by (unfold assign; rewrite length_map, length_seq; reflexivity).
  rewrite (count_true_all H0), Hlen. f_equal. rewrite map_map.
  apply map_ext_in. intros r Hr. f_equal.
  apply select_all.
  - apply Forall_map. eapply Forall_impl; [|exact H0]. simpl. intros w ->. reflexivity.
  - rewrite length_map, Hlen. pose proof (wf_lengths Hwf) as Hl.
    rewrite Forall_forall in Hl. symmetry. apply Hl. assumption.
Qed.

Lemma single_cluster_returns (sample : nat) (data : ndarray) (rnd : nat -> nat) :
  wf data -> 2 <= length (rows data) -> ncols data = sample -> 1 <= sample ->
  Forall (fun r => isfinite (mean sample r) = true) (rows data) ->
  exists st,
    cluster_loop sample data 1 rnd 2 = Ret st /\
    winners st = map (fun _ => 0) (seq 0 sample) /\
    centroids st = [map (mean sample) (rows data)] /\
    cluster sample data 1 rnd 2 = Ret (PyNone, drawing (clusters st)).
Proof.
  intros Hwf Hrows Hcols Hpos Hfin.
  assert (Hloop : exists st,
             cluster_loop sample data 1 rnd 2 = Ret st /\
             winners st = map (fun _ => 0) (seq 0 sample) /\
             centroids st = [map (mean sample) (rows data)]).
  { unfold cluster_loop. rewrite (seeding_ret data 1 rnd Hcols Hpos). simpl bind.
    pose proof (seeding_shape data 1 rnd) as Hshape.
    unfold seeds in *. simpl in *.
    set (c0 := point data (rnd 0 mod ncols data)) in *.
    assert (Hall : forall c, assign data [c] = map (fun _ => 0) (seq 0 sample)).
    { intro c. unfold assign. rewrite Hcols. apply map_ext. intro p.
      apply nearest_single. }
    assert (Hshape1 : centroid_shape data 1 [map (mean (ncols data)) (rows data)]).
    { split; [reflexivity|]. constructor; [|constructor]. apply length_map. }
    assert (Hmeans : Forall (Forall (fun x => isfinite x = true))
                            [map (mean (ncols data)) (rows data)]).
    { constructor; [|constructor]. apply Forall_map. rewrite Hcols. assumption. }
    simpl while_not_done.
    rewrite iteration_eq by (try assumption; lia). simpl bind. simpl snd.
    rewrite (recompute_single c0 Hwf).
    destruct (unchanged [c0] [map (mean (ncols data)) (rows data)]).
    - eexists. split; [reflexivity|]. simpl. rewrite Hall, Hcols. split; reflexivity.
    - simpl fst. simpl centroids.
      rewrite iteration_eq by (try assumption; lia). simpl bind. simpl snd.
      rewrite (recompute_single _ Hwf).
      rewrite (same_centroids_unchanged Hmeans (same_centroids_refl Hmeans)).
      eexists. split; [reflexivity|]. simpl. rewrite Hall, Hcols. split; reflexivity. }
  destruct Hloop as (st & Hst & Hw & Hc).
  exists st. repeat split; try assumption.
  unfold cluster. rewrite Hst. simpl.
  apply cluster_loop_ret in Hst. destruct Hst as [cs' Hit].
  pose proof (clusters_rows _ _ _ _ Hit) as Hr.
  rewrite plot_clusters_drawing; [reflexivity|].
  eapply Forall_impl; [|exact Hr]. simpl. intros c Hcl. lia.
Qed.

(** A pass that gives back the centroids it started from without closing
    the loop is repeated for ever. *)
Lemma fixed_pass_diverges (sample : nat) (data : ndarray) (k : Z)
      (cs : list (list num)) (st : locals) :
  iteration sample data k cs = Ret (st, false) -> centroids st = cs ->
  forall fuel, while_not_done sample fuel data k cs = Timeout.
Proof.
  intros H Hc fuel. induction fuel as [|fuel IH]; simpl; [reflexivity|].
  rewrite H. simpl. rewrite Hc. assumption.
Qed.

(** When the sum of a row overflows the mean is infinite: the difference
    of the centroid with itself is NaN at every pass and the call never
    returns, even with a single cluster. *)
Lemma single_cluster_overflow :
  wf huge_points /\
  forall fuel, cluster_loop 2 huge_points 1 (fun _ => 0) fuel = Timeout.
Proof.
  split; [repeat constructor|].
  intro fuel. unfold cluster_loop.
  rewrite (@seeding_ret 2 huge_points 1%Z (fun _ => 0) eq_refl) by lia.
  cbn [bind].
  assert (H1 : exists st, iteration 2 huge_points 1 (seeds huge_points 1 (fun _ => 0))
                          = Ret (st, false) /\
                          centroids st = [[S754_infinity false; zero]]).
  { eexists. split; vm_compute; reflexivity. }
  assert (H2 : exists st, iteration 2 huge_points 1 [[S754_infinity false; zero]]
                          = Ret (st, false) /\
                          centroids st = [[S754_infinity false; zero]]).
  { eexists. split; vm_compute; reflexivity. }
  destruct H1 as (st1 & H1 & Hc1). destruct H2 as (st2 & H2 & Hc2).
  destruct fuel as [|fuel]; [reflexivity|].
  cbn [while_not_done]. rewrite H1. cbn [bind snd fst]. rewrite Hc1.
  apply (@fixed_pass_diverges 2 huge_points 1%Z _ st2 H2 Hc2).
Qed.

(** ** C2: what [cluster] hands back *)

(** C2, as amended.  Whenever the loop of [cluster] is left, with the
    final variables [st], the call returns [None]: the final assignment and
    centroids stay local, and what the run leaves behind is the drawing of
    the final clusters, one [plt.plot] for each of the first three, then
    [plt.show].  No call returns anything else.  With [k = 1], on a dataset
    of two rows and [sample >= 1] columns whose row means are finite
    numbers, the call does return, within two passes of the loop. *)
Theorem C2_cluster_returns_none (sample : nat) (data : ndarray) (k : Z)
        (rnd : nat -> nat) (fuel : nat) :
  (forall st,
      cluster_loop sample data k rnd fuel = Ret st ->
      cluster sample data k rnd fuel = Ret (PyNone, drawing (clusters st))) /\
  (forall v ps, cluster sample data k rnd fuel = Ret (v, ps) -> v = PyNone) /\
  (wf data -> 2 <= length (rows data) -> ncols data = sample -> 1 <= sample ->
   Forall (fun r => isfinite (mean sample r) = true) (rows data) ->
   exists st, cluster sample data 1 rnd 2 = Ret (PyNone, drawing (clusters st))).
Proof.
  split; [|split].
  - intros st H. unfold cluster. rewrite H. simpl.
    apply cluster_loop_ret in H. destruct H as [cs' H].
    pose proof (clusters_rows _ _ _ _ H) as Hrows.
    apply iteration_facts in H. destruct H as (_ & H2 & _).
    rewrite plot_clusters_drawing; [reflexivity|].
    eapply Forall_impl; [|exact Hrows]. simpl. intros c Hc. lia.
  - intros v ps H. unfold cluster in H. inv_ret H. inv_ret H.
    injection H as <- _. reflexivity.
  - intros Hwf Hrows Hcols Hpos Hfin.
    destruct (single_cluster_returns rnd Hwf Hrows Hcols Hpos Hfin)
      as (st & _ & _ & _ & H).
    exists st. assumption.
Qed.

Lemma C2_cluster_returns_none_witness :
  cluster 2 two_points 1 (fun _ => 0) 1
  = Ret (PyNone, [Plot (ints [0; 2]%Z) (ints [2; 0]%Z) "go"%string; Show]) /\
  exists st, cluster 2 two_points 1 (fun _ => 0) 2 = Ret (PyNone, drawing (clusters st)).
Proof.
  destruct (C2_cluster_returns_none 2 two_points 1 (fun _ => 0) 1) as (Hret & _ & Hone).
  assert (Hst : exists st, cluster_loop 2 two_points 1 (fun _ => 0) 1 = Ret st /\
                           drawing (clusters st)
                           = [Plot (ints [0; 2]%Z) (ints [2; 0]%Z) "go"%string; Show]).
  { eexists. split; vm_compute; reflexivity. }
  destruct Hst as (st & Hst & Hd).
  split.
  - rewrite <- Hd. apply Hret. exact Hst.
  - apply Hone.
    + repeat constructor.
    + simpl; lia.
    + reflexivity.
    + lia.
    + repeat constructor.
Defined.

(** C2 as stated fails: on two points and [k = 1], a valid input, the
    call returns [None] and not a pair of an assignment and centroids. *)
Lemma C2_no_pair_returned :
  ~ (forall (sample : nat) (data : ndarray) (k : Z) (rnd : nat -> nat),
        wf data -> ncols data = sample -> 0 < ncols data ->
        (1 <= k <= Z.of_nat (ncols data))%Z ->
        exists fuel ws cs ps,
          cluster sample data k rnd fuel = Ret (PyPair ws cs, ps)).
Proof.
  intro H.
  destruct (H 2 two_points 1%Z (fun _ => 0)) as (fuel & ws & cs & ps & Hc).
  - repeat constructor.
  - reflexivity.
  - simpl; lia.
  - simpl; lia.
  - unfold cluster in Hc. inv_ret Hc. inv_ret Hc. discriminate.
Qed.
